(** * Finite-strain FEM numerics: tangent matrix, mean dilatation term and
      the compressible Neo-Hookean law

    Shallow embedding of [SU2_CFD/src/numerics_fem_nonlinear_elasticity.cpp].

    Conventions of the embedding.
    - A [double] is a real number: rounding, infinities and NaN are not
      represented.  The C library's [log] stays an abstract function
      [log : R -> R], because its value at arguments outside (0, +oo) is not
      a real number; results that need [log 1 = 0] instantiate it with [ln].
    - A [double**] buffer is a total map from index pairs to reals; a store
      replaces one cell.  The buffer [F_Mat] is allocated 3x3 by the
      constructor, so its stores are bounds-checked and a store outside the
      3x3 block is recorded in [F_fault] and leaves the nine cells alone.
    - Loop counters are [unsigned short] in the source; every loop has the
      shape [for (i = lo; i < hi; i++)] with [hi] itself an [unsigned short],
      so no counter wraps and [nat] is exact.
    - A local variable read before it is assigned holds an indeterminate
      value; those values are the fields of [Uninit]. *)

From Stdlib Require Import Reals Lra Lia List Arith Bool.
Import ListNotations.

Open Scope R_scope.

(** ** Buffers and loops *)

Definition Vec := nat -> R.
Definition Mat := nat -> nat -> R.

Definition upd (v : Vec) (i : nat) (x : R) : Vec :=
  fun i' => if Nat.eqb i' i then x else v i'.

Definition upd2 (M : Mat) (i j : nat) (x : R) : Mat :=
  fun i' j' => if (Nat.eqb i' i && Nat.eqb j' j)%bool then x else M i' j'.

(** [for (k = lo; k < hi; k++) body] *)
Definition for_loop {St : Type} (lo hi : nat) (body : nat -> St -> St) (s : St) : St :=
  fold_left (fun acc k => body k acc) (seq lo (hi - lo)) s.

(** The loop nest that most of the routines are made of: for each row [i]
    below [n] and each column [j] below [bound s], one cell of one buffer
    is replaced by a value computed from its old content and the rest of
    the state. *)
Definition store_cell {St : Type} (get : St -> Mat) (set : Mat -> St -> St)
  (val : nat -> nat -> R -> St -> R) (i j : nat) (s : St) : St :=
  set (upd2 (get s) i j (val i j (get s i j) s)) s.

Definition fill_row {St : Type} (get : St -> Mat) (set : Mat -> St -> St)
  (bound : St -> nat) (val : nat -> nat -> R -> St -> R) (i : nat) (s : St) : St :=
  for_loop 0 (bound s) (store_cell get set val i) s.

Definition fill_block {St : Type} (get : St -> Mat) (set : Mat -> St -> St)
  (bound : St -> nat) (val : nat -> nat -> R -> St -> R) (n : nat) (s : St) : St :=
  for_loop 0 n (fill_row get set bound val) s.

(** Sum of [f 0 .. f (n-1)], accumulated from the left as the loops do. *)
Fixpoint sum_upto (n : nat) (f : nat -> R) : R :=
  match n with
  | O => 0
  | S m => sum_upto m f + f m
  end.

Definition delta (i j : nat) : R := if Nat.eqb i j then 1 else 0.

(** ** The numerics object

    Fields of [CFEM_NonlinearElasticity] ([F_Mat], [b_Mat], [Stress_Tensor],
    [KAux_P_ab], [currentCoord], [J_F]) together with the fields it inherits
    from [CFEM_Elasticity] and uses here.  The inherited buffers are
    allocated outside this file, so only [F_Mat] carries a bounds check.
    [F_fault] is the record of the checked stores that missed the buffer;
    it is not a field of the class. *)

Record CFEM_NonlinearElasticity : Type := mkNumerics {
  nDim : nat;
  Mu : R;
  Lambda : R;
  Kappa : R;
  F_Mat : Mat;
  b_Mat : Mat;
  Stress_Tensor : Mat;
  J_F : R;
  D_Mat : Mat;
  Ba_Mat : Mat;
  Bb_Mat : Mat;
  GradNi_Mat : Mat;
  currentCoord : Mat;
  KAux_ab : Mat;
  KAux_P_ab : Mat;
  F_fault : list (nat * nat)
}.

Definition set_F_Mat (x : Mat) (s : CFEM_NonlinearElasticity) :=
  mkNumerics (nDim s) (Mu s) (Lambda s) (Kappa s) x (b_Mat s) (Stress_Tensor s)
    (J_F s) (D_Mat s) (Ba_Mat s) (Bb_Mat s) (GradNi_Mat s) (currentCoord s)
    (KAux_ab s) (KAux_P_ab s) (F_fault s).

Definition set_b_Mat (x : Mat) (s : CFEM_NonlinearElasticity) :=
  mkNumerics (nDim s) (Mu s) (Lambda s) (Kappa s) (F_Mat s) x (Stress_Tensor s)
    (J_F s) (D_Mat s) (Ba_Mat s) (Bb_Mat s) (GradNi_Mat s) (currentCoord s)
    (KAux_ab s) (KAux_P_ab s) (F_fault s).

Definition set_Stress_Tensor (x : Mat) (s : CFEM_NonlinearElasticity) :=
  mkNumerics (nDim s) (Mu s) (Lambda s) (Kappa s) (F_Mat s) (b_Mat s) x
    (J_F s) (D_Mat s) (Ba_Mat s) (Bb_Mat s) (GradNi_Mat s) (currentCoord s)
    (KAux_ab s) (KAux_P_ab s) (F_fault s).

Definition set_J_F (x : R) (s : CFEM_NonlinearElasticity) :=
  mkNumerics (nDim s) (Mu s) (Lambda s) (Kappa s) (F_Mat s) (b_Mat s)
    (Stress_Tensor s) x (D_Mat s) (Ba_Mat s) (Bb_Mat s) (GradNi_Mat s)
    (currentCoord s) (KAux_ab s) (KAux_P_ab s) (F_fault s).

Definition set_D_Mat (x : Mat) (s : CFEM_NonlinearElasticity) :=
  mkNumerics (nDim s) (Mu s) (Lambda s) (Kappa s) (F_Mat s) (b_Mat s)
    (Stress_Tensor s) (J_F s) x (Ba_Mat s) (Bb_Mat s) (GradNi_Mat s)
    (currentCoord s) (KAux_ab s) (KAux_P_ab s) (F_fault s).

Definition set_Ba_Mat (x : Mat) (s : CFEM_NonlinearElasticity) :=
  mkNumerics (nDim s) (Mu s) (Lambda s) (Kappa s) (F_Mat s) (b_Mat s)
    (Stress_Tensor s) (J_F s) (D_Mat s) x (Bb_Mat s) (GradNi_Mat s)
    (currentCoord s) (KAux_ab s) (KAux_P_ab s) (F_fault s).

Definition set_Bb_Mat (x : Mat) (s : CFEM_NonlinearElasticity) :=
  mkNumerics (nDim s) (Mu s) (Lambda s) (Kappa s) (F_Mat s) (b_Mat s)
    (Stress_Tensor s) (J_F s) (D_Mat s) (Ba_Mat s) x (GradNi_Mat s)
    (currentCoord s) (KAux_ab s) (KAux_P_ab s) (F_fault s).

Definition set_GradNi_Mat (x : Mat) (s : CFEM_NonlinearElasticity) :=
  mkNumerics (nDim s) (Mu s) (Lambda s) (Kappa s) (F_Mat s) (b_Mat s)
    (Stress_Tensor s) (J_F s) (D_Mat s) (Ba_Mat s) (Bb_Mat s) x
    (currentCoord s) (KAux_ab s) (KAux_P_ab s) (F_fault s).

Definition set_currentCoord (x : Mat) (s : CFEM_NonlinearElasticity) :=
  mkNumerics (nDim s) (Mu s) (Lambda s) (Kappa s) (F_Mat s) (b_Mat s)
    (Stress_Tensor s) (J_F s) (D_Mat s) (Ba_Mat s) (Bb_Mat s) (GradNi_Mat s)
    x (KAux_ab s) (KAux_P_ab s) (F_fault s).

Definition set_KAux_ab (x : Mat) (s : CFEM_NonlinearElasticity) :=
  mkNumerics (nDim s) (Mu s) (Lambda s) (Kappa s) (F_Mat s) (b_Mat s)
    (Stress_Tensor s) (J_F s) (D_Mat s) (Ba_Mat s) (Bb_Mat s) (GradNi_Mat s)
    (currentCoord s) x (KAux_P_ab s) (F_fault s).

Definition set_KAux_P_ab (x : Mat) (s : CFEM_NonlinearElasticity) :=
  mkNumerics (nDim s) (Mu s) (Lambda s) (Kappa s) (F_Mat s) (b_Mat s)
    (Stress_Tensor s) (J_F s) (D_Mat s) (Ba_Mat s) (Bb_Mat s) (GradNi_Mat s)
    (currentCoord s) (KAux_ab s) x (F_fault s).

Definition set_F_fault (x : list (nat * nat)) (s : CFEM_NonlinearElasticity) :=
  mkNumerics (nDim s) (Mu s) (Lambda s) (Kappa s) (F_Mat s) (b_Mat s)
    (Stress_Tensor s) (J_F s) (D_Mat s) (Ba_Mat s) (Bb_Mat s) (GradNi_Mat s)
    (currentCoord s) (KAux_ab s) (KAux_P_ab s) x.

(** A store [F_Mat[i][j] = x] into the buffer built by the constructor
    ([new double*[3]], each row [new double[3]]). *)
Definition F_store (i j : nat) (x : R) (s : CFEM_NonlinearElasticity) :=
  if (Nat.ltb i 3 && Nat.ltb j 3)%bool
  then set_F_Mat (upd2 (F_Mat s) i j x) s
  else set_F_fault ((i, j) :: F_fault s) s.

(** Values held by locals that are read without having been assigned:
    [Mu_p], [Lambda_p] of [Compute_Constitutive_Matrix], [Mu_J], [Lambda_J]
    of [Compute_Stress_Tensor], [Avg_kappa] of [Compute_MeanDilatation_Term]
    and [bDim] of [Compute_Tangent_Matrix].  Each local has one such value
    for the whole run. *)
Record Uninit : Type := mkUninit {
  Mu_p_0 : R;
  Lambda_p_0 : R;
  Mu_J_0 : R;
  Lambda_J_0 : R;
  Avg_kappa_0 : R;
  bDim_0 : nat
}.

(** The Voigt ordering of section 3 of the specification, in its words:
    2D -> (xx, yy, xy); 3D -> (xx, yy, zz, xy, xz, yz).  The first [dim]
    components are the normal stresses, the remaining ones the shear
    stresses; there are 3 components in 2D and 6 in 3D. *)
Definition Voigt_components (dim : nat) : nat :=
  if Nat.eqb dim 2 then 3%nat else 6%nat.

(** The isotropic block of section 4.2 of the specification, in its words,
    at the Voigt positions of section 3 for an object of dimension [dim]:
    the diagonal normal-stress entries are [lambda_p + 2 mu_p], the
    off-diagonal normal-stress entries are [lambda_p], the diagonal shear
    entries are [mu_p] and every shear cross-term is 0. *)
Definition isotropic_block (dim : nat) (D : Mat) (mu_p lambda_p : R) : Prop :=
  (forall i, (i < dim)%nat -> D i i = lambda_p + 2 * mu_p) /\
  (forall i j, (i < dim)%nat -> (j < dim)%nat -> i <> j -> D i j = lambda_p) /\
  (forall i, (dim <= i < Voigt_components dim)%nat -> D i i = mu_p) /\
  (forall i j, (i < Voigt_components dim)%nat ->
     (j < Voigt_components dim)%nat -> i <> j ->
     (dim <= i \/ dim <= j)%nat -> D i j = 0).

(** ** The compressible Neo-Hookean law *)

Section NeoHookean.

Variable log : R -> R.
Variable junk : Uninit.

(** Lines 402-405: the coefficients after the guard [if (J_F != 0.0)]. *)
Definition Mu_p (s : CFEM_NonlinearElasticity) : R :=
  if Req_dec_T (J_F s) 0 then Mu_p_0 junk
  else (Mu s - Lambda s * log (J_F s)) / J_F s.

Definition Lambda_p (s : CFEM_NonlinearElasticity) : R :=
  if Req_dec_T (J_F s) 0 then Lambda_p_0 junk
  else Lambda s / J_F s.

(** Lines 407-412: the 36 stores, row by row. *)
Definition fill_D (mu_p lambda_p : R) (D : Mat) : Mat :=
  let D := upd2 D 0 0 (lambda_p + 2 * mu_p) in
  let D := upd2 D 0 1 lambda_p in
  let D := upd2 D 0 2 lambda_p in
  let D := upd2 D 0 3 0 in
  let D := upd2 D 0 4 0 in
  let D := upd2 D 0 5 0 in
  let D := upd2 D 1 0 lambda_p in
  let D := upd2 D 1 1 (lambda_p + 2 * mu_p) in
  let D := upd2 D 1 2 lambda_p in
  let D := upd2 D 1 3 0 in
  let D := upd2 D 1 4 0 in
  let D := upd2 D 1 5 0 in
  let D := upd2 D 2 0 lambda_p in
  let D := upd2 D 2 1 lambda_p in
  let D := upd2 D 2 2 (lambda_p + 2 * mu_p) in
  let D := upd2 D 2 3 0 in
  let D := upd2 D 2 4 0 in
  let D := upd2 D 2 5 0 in
  let D := upd2 D 3 0 0 in
  let D := upd2 D 3 1 0 in
  let D := upd2 D 3 2 0 in
  let D := upd2 D 3 3 mu_p in
  let D := upd2 D 3 4 0 in
  let D := upd2 D 3 5 0 in
  let D := upd2 D 4 0 0 in
  let D := upd2 D 4 1 0 in
  let D := upd2 D 4 2 0 in
  let D := upd2 D 4 3 0 in
  let D := upd2 D 4 4 mu_p in
  let D := upd2 D 4 5 0 in
  let D := upd2 D 5 0 0 in
  let D := upd2 D 5 1 0 in
  let D := upd2 D 5 2 0 in
  let D := upd2 D 5 3 0 in
  let D := upd2 D 5 4 0 in
  upd2 D 5 5 mu_p.

Definition Compute_Constitutive_Matrix (s : CFEM_NonlinearElasticity)
  : CFEM_NonlinearElasticity :=
  set_D_Mat (fill_D (Mu_p s) (Lambda_p s) (D_Mat s)) s.

(** Lines 425-428. *)
Definition Mu_J (s : CFEM_NonlinearElasticity) : R :=
  if Req_dec_T (J_F s) 0 then Mu_J_0 junk else Mu s / J_F s.

Definition Lambda_J (s : CFEM_NonlinearElasticity) : R :=
  if Req_dec_T (J_F s) 0 then Lambda_J_0 junk else Lambda s / J_F s.

(** Lines 430-436. *)
Definition Compute_Stress_Tensor (s : CFEM_NonlinearElasticity)
  : CFEM_NonlinearElasticity :=
  let mu_J := Mu_J s in
  let lambda_J := Lambda_J s in
  for_loop 0 3 (fun i s =>
    for_loop 0 3 (fun j s =>
      let dij := if Nat.eqb i j then 1 else 0 in
      set_Stress_Tensor
        (upd2 (Stress_Tensor s) i j
           (mu_J * (b_Mat s i j - dij) + lambda_J * log (J_F s) * dij)) s) s) s.

End NeoHookean.

(** ** The element

    Getters take their arguments in the source's order
    ([GetGradNi_X e iNode iGauss iDim]). *)

(** Modelled from the spec: the class [CElement] is not in this file; the
    record is the Element Data Provider of section 6 of the specification,
    the getters the two routines call and the three stiffness stores they
    write. *)
Record CElement : Type := mkElement {
  GetnNodes : nat;
  GetnGaussPoints : nat;
  GetnGaussPointsP : nat;
  GetWeight : nat -> R;
  GetJ_X : nat -> R;
  GetJ_x : nat -> R;
  GetGradNi_X : nat -> nat -> nat -> R;
  GetCurr_Coord : nat -> nat -> R;
  GetWeight_P : nat -> R;
  GetJ_X_P : nat -> R;
  GetJ_x_P : nat -> R;
  GetGradNi_x_P : nat -> nat -> nat -> R;
  Kab : nat -> nat -> Mat;
  Ks_ab : nat -> nat -> R;
  Kk_ab : nat -> nat -> Mat
}.

Definition set_Kab (x : nat -> nat -> Mat) (e : CElement) :=
  mkElement (GetnNodes e) (GetnGaussPoints e) (GetnGaussPointsP e)
    (GetWeight e) (GetJ_X e) (GetJ_x e) (GetGradNi_X e) (GetCurr_Coord e)
    (GetWeight_P e) (GetJ_X_P e) (GetJ_x_P e) (GetGradNi_x_P e)
    x (Ks_ab e) (Kk_ab e).

Definition set_Ks_ab (x : nat -> nat -> R) (e : CElement) :=
  mkElement (GetnNodes e) (GetnGaussPoints e) (GetnGaussPointsP e)
    (GetWeight e) (GetJ_X e) (GetJ_x e) (GetGradNi_X e) (GetCurr_Coord e)
    (GetWeight_P e) (GetJ_X_P e) (GetJ_x_P e) (GetGradNi_x_P e)
    (Kab e) x (Kk_ab e).

Definition set_Kk_ab (x : nat -> nat -> Mat) (e : CElement) :=
  mkElement (GetnNodes e) (GetnGaussPoints e) (GetnGaussPointsP e)
    (GetWeight e) (GetJ_X e) (GetJ_x e) (GetGradNi_X e) (GetCurr_Coord e)
    (GetWeight_P e) (GetJ_X_P e) (GetJ_x_P e) (GetGradNi_x_P e)
    (Kab e) (Ks_ab e) x.

Definition same_pair (a b a' b' : nat) : bool :=
  (Nat.eqb a' a && Nat.eqb b' b)%bool.

(** Modelled from the spec: [CElement::clearElement] is not in this file;
    the spec says the call "resets the element's accumulators", here the
    two stores that [Compute_Tangent_Matrix] adds into. *)
Definition clearElement (e : CElement) : CElement :=
  set_Ks_ab (fun _ _ => 0) (set_Kab (fun _ _ _ _ => 0) e).

(** Modelled from the spec: [CElement::ComputeGrad_Linear] is not in this
    file; it "triggers gradient computation in reference configuration".
    The getters of the record return what the provider supplies after this
    call, so the call itself changes nothing that is read here. *)
Definition ComputeGrad_Linear (e : CElement) : CElement := e.

(** Modelled from the spec: [CElement::Add_Kab] is not in this file; it
    adds the material block into the element's stored block for (a,b). *)
Definition Add_Kab (val : Mat) (a b : nat) (e : CElement) : CElement :=
  set_Kab (fun a' b' => if same_pair a b a' b'
                        then (fun i j => Kab e a b i j + val i j)
                        else Kab e a' b') e.

(** Modelled from the spec: [CElement::Add_Kab_T] is not in this file; it
    adds the transposed material block into the stored block for (a,b). *)
Definition Add_Kab_T (val : Mat) (a b : nat) (e : CElement) : CElement :=
  set_Kab (fun a' b' => if same_pair a b a' b'
                        then (fun i j => Kab e a b i j + val j i)
                        else Kab e a' b') e.

(** Modelled from the spec: [CElement::Add_Ks_ab] is not in this file; it
    adds the geometric stiffness scalar into the stored scalar for (a,b). *)
Definition Add_Ks_ab (val : R) (a b : nat) (e : CElement) : CElement :=
  set_Ks_ab (fun a' b' => if same_pair a b a' b'
                          then Ks_ab e a b + val
                          else Ks_ab e a' b') e.

(** Modelled from the spec: [CElement::Set_Kk_ab] is not in this file; it
    overwrites (does not accumulate into) the pressure-stiffness block for
    (a,b). *)
Definition Set_Kk_ab (val : Mat) (a b : nat) (e : CElement) : CElement :=
  set_Kk_ab (fun a' b' => if same_pair a b a' b' then val else Kk_ab e a' b') e.

(** Modelled from the spec: the assembled element stiffness is the material
    block plus the geometric scalar "broadcast onto the nDim x nDim block as
    a scaled identity-like contribution"; entry (row node a, component i;
    column node b, component j). *)
Definition K_element (e : CElement) (a i b j : nat) : R :=
  Kab e a b i j + Ks_ab e a b * delta i j.

(** ** Compute_Tangent_Matrix *)

(** The activation record of [Compute_Tangent_Matrix]: the object, the
    element and the two local arrays.  [double AuxMatrixKc[6][3]] is kept
    as its 18 contiguous cells, cell [i][j] being cell [3*i + j]: the source
    subscripts it with [i < nDim], [j < bDim]. *)
Record Frame : Type := mkFrame {
  this : CFEM_NonlinearElasticity;
  element : CElement;
  AuxMatrixKc : Vec;
  AuxMatrixKs : Vec
}.

Definition Kc_at (i j : nat) : nat := 3 * i + j.

Section Routines.

Variable log : R -> R.
Variable junk : Uninit.

(** Lines 116-117. *)
Definition bDim (s : CFEM_NonlinearElasticity) : nat :=
  if Nat.eqb (nDim s) 2 then 3%nat
  else if Nat.eqb (nDim s) 3 then 6%nat
  else bDim_0 junk.

(** Lines 119-124. *)
Definition init_Ba_Bb (s : CFEM_NonlinearElasticity) : CFEM_NonlinearElasticity :=
  for_loop 0 (bDim s) (fun i s =>
    for_loop 0 (nDim s) (fun j s =>
      set_Bb_Mat (upd2 (Bb_Mat s) i j 0)
        (set_Ba_Mat (upd2 (Ba_Mat s) i j 0) s)) s) s.

(** Lines 126-130. *)
Definition init_AuxMatrixKc (v : Vec) : Vec :=
  for_loop 0 6 (fun i v => for_loop 0 3 (fun j v => upd v (Kc_at i j) 0) v) v.

(** Lines 132-134. *)
Definition init_AuxMatrixKs (v : Vec) : Vec :=
  for_loop 0 3 (fun i v => upd v i 0) v.

(** Lines 151-156. *)
Definition init_F_b (s : CFEM_NonlinearElasticity) : CFEM_NonlinearElasticity :=
  for_loop 0 (nDim s) (fun i s =>
    for_loop 0 (nDim s) (fun j s =>
      set_b_Mat (upd2 (b_Mat s) i j 0) (F_store i j 0 s)) s) s.

(** Lines 163-166. *)
Definition retrieve_node (e : CElement) (iGauss iNode : nat)
  (s : CFEM_NonlinearElasticity) : CFEM_NonlinearElasticity :=
  for_loop 0 (nDim s) (fun iDim s =>
    set_currentCoord
      (upd2 (currentCoord s) iNode iDim (GetCurr_Coord e iNode iDim))
      (set_GradNi_Mat
         (upd2 (GradNi_Mat s) iNode iDim (GetGradNi_X e iNode iGauss iDim)) s)) s.

(** Lines 170-174. *)
Definition accumulate_F (iNode : nat) (s : CFEM_NonlinearElasticity)
  : CFEM_NonlinearElasticity :=
  for_loop 0 (nDim s) (fun i s =>
    for_loop 0 (nDim s) (fun j s =>
      F_store i j (F_Mat s i j + currentCoord s iNode i * GradNi_Mat s iNode j) s) s) s.

(** Lines 177-179. *)
Definition plane_strain (s : CFEM_NonlinearElasticity) : CFEM_NonlinearElasticity :=
  if Nat.eqb (nDim s) 2 then F_store 3 3 1 s else s.

(** Lines 161-181: the body of the first node loop. *)
Definition deformation_gradient_node (e : CElement) (iGauss iNode : nat)
  (s : CFEM_NonlinearElasticity) : CFEM_NonlinearElasticity :=
  plane_strain (accumulate_F iNode (retrieve_node e iGauss iNode s)).

(** Lines 185-190. *)
Definition determinant_F (s : CFEM_NonlinearElasticity) : CFEM_NonlinearElasticity :=
  let F := F_Mat s in
  set_J_F (F 0%nat 0%nat * F 1%nat 1%nat * F 2%nat 2%nat +
           F 0%nat 1%nat * F 1%nat 2%nat * F 2%nat 0%nat +
           F 0%nat 2%nat * F 1%nat 0%nat * F 2%nat 1%nat -
           F 0%nat 2%nat * F 1%nat 1%nat * F 2%nat 0%nat -
           F 1%nat 2%nat * F 2%nat 1%nat * F 0%nat 0%nat -
           F 2%nat 2%nat * F 0%nat 1%nat * F 1%nat 0%nat) s.

(** Lines 194-200. *)
Definition left_Cauchy_Green (s : CFEM_NonlinearElasticity) : CFEM_NonlinearElasticity :=
  for_loop 0 3 (fun i s =>
    for_loop 0 3 (fun j s =>
      for_loop 0 3 (fun k s =>
        set_b_Mat (upd2 (b_Mat s) i j (b_Mat s i j + F_Mat s i k * F_Mat s j k)) s) s) s) s.

(** Lines 149-200: everything done at a Gauss point before the stiffness
    loop. *)
Definition kinematics (e : CElement) (iGauss : nat) (s : CFEM_NonlinearElasticity)
  : CFEM_NonlinearElasticity :=
  left_Cauchy_Green
    (determinant_F
       (for_loop 0 (GetnNodes e) (deformation_gradient_node e iGauss)
          (init_F_b s))).

(** Lines 205-221 and 250-266: the stores into [Ba_Mat] / [Bb_Mat]. *)
Definition Voigt_B (dim : nat) (G : Mat) (node : nat) (B : Mat) : Mat :=
  if Nat.eqb dim 2 then
    let B := upd2 B 0 0 (G node 0%nat) in
    let B := upd2 B 1 1 (G node 1%nat) in
    let B := upd2 B 2 0 (G node 1%nat) in
    upd2 B 2 1 (G node 0%nat)
  else if Nat.eqb dim 3 then
    let B := upd2 B 0 0 (G node 0%nat) in
    let B := upd2 B 1 1 (G node 1%nat) in
    let B := upd2 B 2 2 (G node 2%nat) in
    let B := upd2 B 3 0 (G node 1%nat) in
    let B := upd2 B 3 1 (G node 0%nat) in
    let B := upd2 B 4 0 (G node 2%nat) in
    let B := upd2 B 4 2 (G node 0%nat) in
    let B := upd2 B 5 1 (G node 2%nat) in
    upd2 B 5 2 (G node 1%nat)
  else B.

(** Lines 230-237. *)
Definition BT_D (s : CFEM_NonlinearElasticity) (Kc : Vec) : Vec :=
  for_loop 0 (nDim s) (fun i Kc =>
    for_loop 0 (bDim s) (fun j Kc =>
      for_loop 0 (bDim s) (fun k Kc =>
        upd Kc (Kc_at i j) (Kc (Kc_at i j) + Ba_Mat s k i * D_Mat s k j))
        (upd Kc (Kc_at i j) 0)) Kc) Kc.

(** Lines 241-246. *)
Definition GradT_Stress (s : CFEM_NonlinearElasticity) (iNode : nat) (Ks : Vec) : Vec :=
  for_loop 0 (nDim s) (fun i Ks =>
    for_loop 0 (nDim s) (fun j Ks =>
      upd Ks i (Ks i + GradNi_Mat s iNode j * Stress_Tensor s j i))
      (upd Ks i 0)) Ks.

(** Lines 269-276. *)
Definition material_block (Weight Jac_X : R) (Kc : Vec)
  (s : CFEM_NonlinearElasticity) : CFEM_NonlinearElasticity :=
  for_loop 0 (nDim s) (fun i s =>
    for_loop 0 (nDim s) (fun j s =>
      for_loop 0 (bDim s) (fun k s =>
        set_KAux_ab
          (upd2 (KAux_ab s) i j
             (KAux_ab s i j + Weight * Kc (Kc_at i k) * Bb_Mat s k j * Jac_X)) s)
        (set_KAux_ab (upd2 (KAux_ab s) i j 0) s)) s) s.

(** Lines 280-283. *)
Definition geometric_scalar (Weight Jac_X : R) (Ks : Vec) (jNode : nat)
  (s : CFEM_NonlinearElasticity) : R :=
  for_loop 0 (nDim s) (fun i acc =>
    acc + Weight * Ks i * GradNi_Mat s jNode i * Jac_X) 0.

(** Lines 249-293: the body of the loop over [jNode]. *)
Definition pair_block (Weight Jac_X : R) (iNode jNode : nat) (fr : Frame) : Frame :=
  let s := this fr in
  let s := set_Bb_Mat (Voigt_B (nDim s) (GradNi_Mat s) jNode (Bb_Mat s)) s in
  let s := material_block Weight Jac_X (AuxMatrixKc fr) s in
  let Ks_Aux_ab := geometric_scalar Weight Jac_X (AuxMatrixKs fr) jNode s in
  let e := Add_Kab (KAux_ab s) iNode jNode (element fr) in
  let e := Add_Ks_ab Ks_Aux_ab iNode jNode e in
  let e := if negb (Nat.eqb iNode jNode)
           then Add_Ks_ab Ks_Aux_ab iNode jNode
                  (Add_Kab_T (KAux_ab s) jNode iNode e)
           else e in
  mkFrame s e (AuxMatrixKc fr) (AuxMatrixKs fr).

(** Lines 203-295: the body of the second node loop. *)
Definition stiffness_node (Weight Jac_X : R) (iNode : nat) (fr : Frame) : Frame :=
  let s := this fr in
  let s := set_Ba_Mat (Voigt_B (nDim s) (GradNi_Mat s) iNode (Ba_Mat s)) s in
  let s := Compute_Constitutive_Matrix log junk s in
  let Kc := BT_D s (AuxMatrixKc fr) in
  let Ks := GradT_Stress s iNode (AuxMatrixKs fr) in
  for_loop iNode (GetnNodes (element fr)) (pair_block Weight Jac_X iNode)
    (mkFrame s (element fr) Kc Ks).

(** Lines 143-297: the body of the loop over Gauss points.  [Jac_x] is
    read on line 147 and not used. *)
Definition Gauss_point (iGauss : nat) (fr : Frame) : Frame :=
  let e := element fr in
  let Weight := GetWeight e iGauss in
  let Jac_X := GetJ_X e iGauss in
  let s := kinematics e iGauss (this fr) in
  for_loop 0 (GetnNodes e) (stiffness_node Weight Jac_X)
    (mkFrame s e (AuxMatrixKc fr) (AuxMatrixKs fr)).

Definition Compute_Tangent_Matrix (s : CFEM_NonlinearElasticity) (e : CElement)
  : CFEM_NonlinearElasticity * CElement :=
  let s := init_Ba_Bb s in
  let Kc := init_AuxMatrixKc (fun _ => 0) in
  let Ks := init_AuxMatrixKs (fun _ => 0) in
  let e := ComputeGrad_Linear (clearElement e) in
  let fr := for_loop 0 (GetnGaussPoints e) Gauss_point (mkFrame s e Kc Ks) in
  (this fr, element fr).

(** ** Compute_MeanDilatation_Term *)

(** Lines 321-325. *)
Definition md_init (nNode : nat) (s : CFEM_NonlinearElasticity)
  : CFEM_NonlinearElasticity :=
  for_loop 0 nNode (fun iNode s =>
    for_loop 0 (nDim s) (fun iDim s =>
      set_GradNi_Mat (upd2 (GradNi_Mat s) iNode iDim 0) s) s) s.

(** Lines 340-345. *)
Definition md_average (e : CElement) (iGauss : nat) (s : CFEM_NonlinearElasticity)
  : CFEM_NonlinearElasticity :=
  for_loop 0 (GetnNodes e) (fun iNode s =>
    for_loop 0 (nDim s) (fun iDim s =>
      let GradNi_Mat_Term := GetGradNi_x_P e iNode iGauss iDim in
      set_GradNi_Mat
        (upd2 (GradNi_Mat s) iNode iDim
           (GradNi_Mat s iNode iDim
            + GetWeight_P e iGauss * GradNi_Mat_Term * GetJ_x_P e iGauss)) s) s) s.

(** The state of the loop over Gauss points: the object and the two
    accumulated volumes. *)
Record Volumes : Type := mkVolumes {
  md_this : CFEM_NonlinearElasticity;
  Vol_current : R;
  Vol_reference : R
}.

(** Lines 330-350: the body of the loop. *)
Definition md_Gauss_point (e : CElement) (iGauss : nat) (v : Volumes) : Volumes :=
  mkVolumes (md_average e iGauss (md_this v))
    (Vol_current v + GetWeight_P e iGauss * GetJ_x_P e iGauss)
    (Vol_reference v + GetWeight_P e iGauss * GetJ_X_P e iGauss).

(** Lines 317-350. *)
Definition md_accumulate (s : CFEM_NonlinearElasticity) (e : CElement) : Volumes :=
  for_loop 0 (GetnGaussPointsP e) (md_Gauss_point e)
    (mkVolumes (md_init (GetnNodes e) s) 0 0).

(** The guard of line 352. *)
Definition md_guard (v : Volumes) : bool :=
  if Req_dec_T (Vol_current v) 0 then false
  else if Req_dec_T (Vol_reference v) 0 then false
  else true.

(** Lines 356-360. *)
Definition md_divide (nNode : nat) (vol : R) (s : CFEM_NonlinearElasticity)
  : CFEM_NonlinearElasticity :=
  for_loop 0 nNode (fun iNode s =>
    for_loop 0 (nDim s) (fun iDim s =>
      set_GradNi_Mat
        (upd2 (GradNi_Mat s) iNode iDim (GradNi_Mat s iNode iDim / vol)) s) s) s.

(** Lines 352-364: the averaged gradients (in [GradNi_Mat]) and [Avg_kappa]
    after the guarded block. *)
Definition md_normalise (nNode : nat) (v : Volumes) : CFEM_NonlinearElasticity * R :=
  if md_guard v
  then (md_divide nNode (Vol_current v) (md_this v),
        Kappa (md_this v) * Vol_current v / Vol_reference v)
  else (md_this v, Avg_kappa_0 junk).

(** Lines 371-375. *)
Definition pressure_block (Avg_kappa vol : R) (iNode jNode : nat)
  (s : CFEM_NonlinearElasticity) : CFEM_NonlinearElasticity :=
  for_loop 0 (nDim s) (fun i s =>
    for_loop 0 (nDim s) (fun j s =>
      set_KAux_P_ab
        (upd2 (KAux_P_ab s) i j
           (Avg_kappa * vol * GradNi_Mat s iNode i * GradNi_Mat s jNode j)) s) s) s.

(** Lines 366-381. *)
Definition md_write (nNode : nat) (Avg_kappa vol : R)
  (se : CFEM_NonlinearElasticity * CElement) : CFEM_NonlinearElasticity * CElement :=
  for_loop 0 nNode (fun iNode se =>
    for_loop 0 nNode (fun jNode se =>
      let s := pressure_block Avg_kappa vol iNode jNode (fst se) in
      (s, Set_Kk_ab (KAux_P_ab s) iNode jNode (snd se))) se) se.

Definition Compute_MeanDilatation_Term (s : CFEM_NonlinearElasticity) (e : CElement)
  : CFEM_NonlinearElasticity * CElement :=
  let nNode := GetnNodes e in
  let v := md_accumulate s e in
  let sk := md_normalise nNode v in
  md_write nNode (snd sk) (Vol_current v) (fst sk, e).

End Routines.

(** ** Concrete elements and states

    The elements are the linear simplices on their reference coordinates:
    shape functions [1 - x - y, x, y] (and [1 - x - y - z, x, y, z]), whose
    gradients are constant, with the one-point rule.  Current coordinates
    equal reference coordinates unless said otherwise. *)

Definition Mat_zero : Mat := fun _ _ => 0.
Definition Mat_identity : Mat := fun i j => delta i j.

Definition simplex_grad (iNode iGauss iDim : nat) : R :=
  match iNode with
  | O => -1
  | S k => delta k iDim
  end.

Definition simplex_coord (iNode iDim : nat) : R :=
  match iNode with
  | O => 0
  | S k => delta k iDim
  end.

Definition triangle : CElement :=
  mkElement 3 1 1
    (fun _ => 1 / 2) (fun _ => 1) (fun _ => 1) simplex_grad simplex_coord
    (fun _ => 1 / 2) (fun _ => 1) (fun _ => 1) simplex_grad
    (fun _ _ => Mat_zero) (fun _ _ => 0) (fun _ _ => Mat_zero).

(** The same triangle integrated with two Gauss points of weight 1/4. *)
Definition triangle_2gp : CElement :=
  mkElement 3 2 1
    (fun _ => 1 / 4) (fun _ => 1) (fun _ => 1) simplex_grad simplex_coord
    (fun _ => 1 / 2) (fun _ => 1) (fun _ => 1) simplex_grad
    (fun _ _ => Mat_zero) (fun _ _ => 0) (fun _ _ => Mat_zero).

(** The triangle with its current configuration collapsed: the current
    Jacobian of the pressure rule is 0. *)
Definition triangle_collapsed : CElement :=
  mkElement 3 1 1
    (fun _ => 1 / 2) (fun _ => 1) (fun _ => 0) simplex_grad (fun _ _ => 0)
    (fun _ => 1 / 2) (fun _ => 1) (fun _ => 0) simplex_grad
    (fun _ _ => Mat_zero) (fun _ _ => 0) (fun _ _ => Mat_zero).

Definition tetrahedron : CElement :=
  mkElement 4 1 1
    (fun _ => 1 / 6) (fun _ => 1) (fun _ => 1) simplex_grad simplex_coord
    (fun _ => 1 / 6) (fun _ => 1) (fun _ => 1) simplex_grad
    (fun _ _ => Mat_zero) (fun _ _ => 0) (fun _ _ => Mat_zero).

(** An object of dimension [dim] with unit material constants, whose
    buffers [F_Mat], [b_Mat], [Stress_Tensor] and [GradNi_Mat] hold the
    given contents and whose other buffers hold zeros. *)
Definition numerics (dim : nat) (F0 b0 S0 G0 : Mat) (J0 : R)
  : CFEM_NonlinearElasticity :=
  mkNumerics dim 1 1 1 F0 b0 S0 J0 Mat_zero Mat_zero Mat_zero G0
    Mat_zero Mat_zero Mat_zero [].

Definition junk1 : Uninit := mkUninit 1 1 1 1 1 0.

(** A freshly zeroed 2D object. *)
Definition fresh_2D : CFEM_NonlinearElasticity :=
  numerics 2 Mat_zero Mat_zero Mat_zero Mat_zero 0.

(** A 2D object whose [F_Mat] already holds the plane-strain closure and
    whose [Stress_Tensor] holds the identity. *)
Definition stressed_2D : CFEM_NonlinearElasticity :=
  numerics 2 Mat_identity Mat_zero Mat_identity Mat_zero 0.

(** A 2D object whose buffers hold values left by earlier work: 7 in
    [F_Mat[0][2]], 5 in [b_Mat[2][2]], 7 in [GradNi_Mat[0][0]]. *)
Definition stale_2D : CFEM_NonlinearElasticity :=
  numerics 2 (upd2 Mat_identity 0 2 7) (upd2 Mat_zero 2 2 5) Mat_zero
    (upd2 Mat_zero 0 0 7) 0.

(** A 3D object whose [Stress_Tensor] holds the identity. *)
Definition stressed_3D : CFEM_NonlinearElasticity :=
  numerics 3 Mat_zero Mat_zero Mat_identity Mat_zero 0.

(** An object with [J_F = 0]. *)
Definition singular_3D : CFEM_NonlinearElasticity :=
  numerics 3 Mat_zero Mat_identity Mat_zero Mat_zero 0.

(** An object with [J_F = 2]. *)
Definition stretched_3D : CFEM_NonlinearElasticity :=
  numerics 3 Mat_zero Mat_identity Mat_zero Mat_zero 2.

(** A 2D object in the undeformed state: [F_Mat] and [b_Mat] hold the
    identity and [J_F = 1]. *)
Definition undeformed_2D : CFEM_NonlinearElasticity :=
  numerics 2 Mat_identity Mat_identity Mat_zero Mat_zero 1.

(** ** Closed forms for the mean dilatation term

    The three sums that the loop over the pressure rule accumulates, and the
    test of line 352, written on the element's data. *)

Definition md_Vol_current (e : CElement) : R :=
  sum_upto (GetnGaussPointsP e) (fun g => GetWeight_P e g * GetJ_x_P e g).

Definition md_Vol_reference (e : CElement) : R :=
  sum_upto (GetnGaussPointsP e) (fun g => GetWeight_P e g * GetJ_X_P e g).

Definition md_gradient_sum (e : CElement) (a i : nat) : R :=
  sum_upto (GetnGaussPointsP e)
    (fun g => GetWeight_P e g * GetGradNi_x_P e a g i * GetJ_x_P e g).

(** An object of dimension 2 with bulk modulus [kappa] and zeroed buffers. *)
Definition bulk_2D (kappa : R) : CFEM_NonlinearElasticity :=
  mkNumerics 2 1 1 kappa Mat_zero Mat_zero Mat_zero 0 Mat_zero Mat_zero
    Mat_zero Mat_zero Mat_zero Mat_zero Mat_zero [].

(** ** Closed forms for the kinematics of a Gauss point

    The deformation gradient of section 3 of the specification,
    [F[i][j] = sum over nodes of x[node][i] * dN_node/dX[j]], and the
    cofactor expansion of lines 185-190 on an arbitrary matrix. *)

Definition F_sum (e : CElement) (g i j : nat) : R :=
  sum_upto (GetnNodes e)
    (fun n => GetCurr_Coord e n i * GetGradNi_X e n g j).

Definition det3 (M : Mat) : R :=
  M 0%nat 0%nat * M 1%nat 1%nat * M 2%nat 2%nat +
  M 0%nat 1%nat * M 1%nat 2%nat * M 2%nat 0%nat +
  M 0%nat 2%nat * M 1%nat 0%nat * M 2%nat 1%nat -
  M 0%nat 2%nat * M 1%nat 1%nat * M 2%nat 0%nat -
  M 1%nat 2%nat * M 2%nat 1%nat * M 0%nat 0%nat -
  M 2%nat 2%nat * M 0%nat 1%nat * M 1%nat 0%nat.

(** The reference tetrahedron with every current coordinate multiplied by
    [c]. *)
Definition tetrahedron_scaled (c : R) : CElement :=
  mkElement 4 1 1
    (fun _ => 1 / 6) (fun _ => 1) (fun _ => c * c * c) simplex_grad
    (fun n i => c * simplex_coord n i)
    (fun _ => 1 / 6) (fun _ => 1) (fun _ => c * c * c) simplex_grad
    (fun _ _ => Mat_zero) (fun _ _ => 0) (fun _ _ => Mat_zero).

(** An element with no node and no Gauss point. *)
Definition empty_element : CElement :=
  mkElement 0 0 0
    (fun _ => 0) (fun _ => 0) (fun _ => 0) (fun _ _ _ => 0) (fun _ _ => 0)
    (fun _ => 0) (fun _ => 0) (fun _ => 0) (fun _ _ _ => 0)
    (fun _ _ => Mat_zero) (fun _ _ => 0) (fun _ _ => Mat_zero).

(** ** The constructor

    Lines 52-59: the number of rows of [currentCoord] that
    [CFEM_NonlinearElasticity::CFEM_NonlinearElasticity] allocates, each of
    [nDim] doubles; for a dimension other than 2 and 3 nothing is
    allocated. *)
Definition currentCoord_rows (val_nDim : nat) : option nat :=
  if Nat.eqb val_nDim 2 then Some 4%nat
  else if Nat.eqb val_nDim 3 then Some 8%nat
  else None.

(** ** Closed form for the geometric stiffness

    Lines 241-246 and 280-283 for one Gauss point and one node pair:
    [sum over i of Weight * (sum over j of dN_a/dX[j] * S[j][i])
                   * dN_b/dX[i] * Jac_X]. *)
Definition geometric_term (e : CElement) (S : Mat) (dim g a b : nat) : R :=
  sum_upto dim (fun i =>
    GetWeight e g
    * sum_upto dim (fun j => GetGradNi_X e a g j * S j i)
    * GetGradNi_X e b g i * GetJ_X e g).

(** How many times line 286 and line 290 add the scalar of the pair (a,b)
    into the store of (a,b). *)
Definition geometric_count (a b : nat) : R :=
  if Nat.ltb a b then 2 else if Nat.eqb a b then 1 else 0.

(** Two elements that differ at most in their stiffness stores. *)
Definition same_tangent_data (e e' : CElement) : Prop :=
  GetnNodes e' = GetnNodes e /\ GetWeight e' = GetWeight e /\
  GetJ_X e' = GetJ_X e /\ GetGradNi_X e' = GetGradNi_X e.

(** What the stiffness loop of Gauss point [g] relies on, relative to the
    object [s] and the element [e] that the routine was called with: the
    dimension and the stress are those of [s], and [GradNi_Mat] holds the
    reference gradients of [e] at [g]. *)
Definition stiffness_ready (s : CFEM_NonlinearElasticity) (e : CElement)
  (g : nat) (t : CFEM_NonlinearElasticity) : Prop :=
  nDim t = nDim s /\ Stress_Tensor t = Stress_Tensor s /\
  forall n c, (n < GetnNodes e)%nat -> (c < nDim s)%nat ->
    GradNi_Mat t n c = GetGradNi_X e n g c.

(** * Properties *)

(** ** Loops *)

Lemma for_loop_empty {St : Type} (lo hi : nat) (body : nat -> St -> St) (s : St) :
  (hi <= lo)%nat -> for_loop lo hi body s = s.
Proof.
  intros H. unfold for_loop. replace (hi - lo)%nat with 0%nat by lia. reflexivity.
Qed.

Lemma for_loop_last {St : Type} (lo hi : nat) (body : nat -> St -> St) (s : St) :
  (lo <= hi)%nat ->
  for_loop lo (S hi) body s = body hi (for_loop lo hi body s).
Proof.
  intros H. unfold for_loop.
  replace (S hi - lo)%nat with (S (hi - lo)) by lia.
  rewrite seq_S, fold_left_app. simpl.
  replace (lo + (hi - lo))%nat with hi by lia. reflexivity.
Qed.

Lemma for_loop_first {St : Type} (lo hi : nat) (body : nat -> St -> St) (s : St) :
  (lo < hi)%nat ->
  for_loop lo hi body s = for_loop (S lo) hi body (body lo s).
Proof.
  intros H. unfold for_loop.
  replace (hi - lo)%nat with (S (hi - S lo)) by lia.
  reflexivity.
Qed.

(** Loop invariants indexed by the counter. *)
Lemma for_loop_ind {St : Type} (P : nat -> St -> Prop) (lo hi : nat)
  (body : nat -> St -> St) (s : St) :
  (lo <= hi)%nat ->
  P lo s ->
  (forall k t, (lo <= k < hi)%nat -> P k t -> P (S k) (body k t)) ->
  P hi (for_loop lo hi body s).
Proof.
  intros Hle H0 Hstep. induction hi as [|hi IH].
  - assert (lo = 0)%nat by lia. subst. exact H0.
  - destruct (Nat.eq_dec lo (S hi)) as [->|Hne].
    + rewrite for_loop_empty by lia. exact H0.
    + rewrite for_loop_last by lia. apply Hstep; [lia|].
      apply IH; [lia|]. intros k t Hk. apply Hstep. lia.
Qed.

(** Properties that every iteration keeps. *)
Lemma for_loop_preserves {St : Type} (Q : St -> Prop) (lo hi : nat)
  (body : nat -> St -> St) (s : St) :
  Q s -> (forall k t, Q t -> Q (body k t)) -> Q (for_loop lo hi body s).
Proof.
  intros H0 Hstep. unfold for_loop.
  generalize (seq lo (hi - lo)). intros l. revert s H0.
  induction l as [|k l IH]; intros s H0; simpl; auto.
Qed.

Lemma ltb_succ_other (j k : nat) :
  j <> k -> Nat.ltb j (S k) = Nat.ltb j k.
Proof.
  intros H. destruct (Nat.ltb_spec j k); destruct (Nat.ltb_spec j (S k));
    try reflexivity; lia.
Qed.

Section FillLoops.

Variable St : Type.
Variable get : St -> Mat.
Variable set : Mat -> St -> St.
Variable bound : St -> nat.
Variable val : nat -> nat -> R -> St -> R.

Hypothesis get_set : forall M s, get (set M s) = M.
Hypothesis bound_set : forall M s, bound (set M s) = bound s.
Hypothesis val_set : forall i j x M s, val i j x (set M s) = val i j x s.

Lemma fill_row_spec (i : nat) (s : St) :
  (bound (fill_row get set bound val i s) = bound s /\
   forall a b x, val a b x (fill_row get set bound val i s) = val a b x s) /\
  forall i' j', get (fill_row get set bound val i s) i' j' =
    if (Nat.eqb i' i && Nat.ltb j' (bound s))%bool
    then val i j' (get s i j') s else get s i' j'.
Proof.
  unfold fill_row.
  apply (for_loop_ind (fun k t =>
    (bound t = bound s /\ forall a b x, val a b x t = val a b x s) /\
    forall i' j', get t i' j' =
      if (Nat.eqb i' i && Nat.ltb j' k)%bool
      then val i j' (get s i j') s else get s i' j')); [lia| |].
  - split; [split; auto|]. intros i' j'. now rewrite andb_false_r.
  - intros k t Hk [[Hb Hv] Hg]. unfold store_cell. split.
    + split; [now rewrite bound_set|]. intros. now rewrite val_set.
    + intros i' j'. rewrite get_set. unfold upd2 at 1.
      destruct (Nat.eqb_spec i' i) as [->|Hi]; simpl.
      * destruct (Nat.eqb_spec j' k) as [->|Hj].
        -- rewrite Hv, Hg, Nat.eqb_refl, Nat.ltb_irrefl. simpl.
           now rewrite (proj2 (Nat.ltb_lt k (S k)) (Nat.lt_succ_diag_r k)).
        -- rewrite Hg, Nat.eqb_refl. simpl. now rewrite ltb_succ_other.
      * rewrite Hg. destruct (Nat.eqb_spec i' i); [contradiction|]. reflexivity.
Qed.

Lemma fill_block_spec (n : nat) (s : St) :
  (bound (fill_block get set bound val n s) = bound s /\
   forall a b x, val a b x (fill_block get set bound val n s) = val a b x s) /\
  forall i' j', get (fill_block get set bound val n s) i' j' =
    if (Nat.ltb i' n && Nat.ltb j' (bound s))%bool
    then val i' j' (get s i' j') s else get s i' j'.
Proof.
  unfold fill_block.
  apply (for_loop_ind (fun k t =>
    (bound t = bound s /\ forall a b x, val a b x t = val a b x s) /\
    forall i' j', get t i' j' =
      if (Nat.ltb i' k && Nat.ltb j' (bound s))%bool
      then val i' j' (get s i' j') s else get s i' j')); [lia| |].
  - split; [split; auto|]. reflexivity.
  - intros k t Hk [[Hb Hv] Hg].
    destruct (fill_row_spec k t) as [[Hb' Hv'] Hg']. split.
    + split; [congruence|]. intros. now rewrite Hv', Hv.
    + intros i' j'. rewrite Hg', Hb.
      destruct (Nat.eqb_spec i' k) as [->|Hi]; simpl.
      * rewrite (proj2 (Nat.ltb_lt k (S k)) (Nat.lt_succ_diag_r k)). simpl.
        rewrite Hv, !Hg, Nat.ltb_irrefl. simpl.
        now destruct (j' <? bound s)%nat.
      * rewrite Hg. now rewrite ltb_succ_other.
Qed.

(** In range, a cell holds the value computed from its old content. *)
Lemma fill_block_cell (n : nat) (s : St) (i j : nat) :
  (i < n)%nat -> (j < bound s)%nat ->
  get (fill_block get set bound val n s) i j = val i j (get s i j) s.
Proof.
  intros Hi Hj. rewrite (proj2 (fill_block_spec n s)).
  now rewrite (proj2 (Nat.ltb_lt _ _) Hi), (proj2 (Nat.ltb_lt _ _) Hj).
Qed.

(** What the stores do not touch is left alone. *)
Lemma fill_block_frame {A : Type} (p : St -> A) (n : nat) (s : St) :
  (forall M t, p (set M t) = p t) ->
  p (fill_block get set bound val n s) = p s.
Proof.
  intros Hp. unfold fill_block, fill_row.
  apply (for_loop_preserves (fun t => p t = p s)); [reflexivity|].
  intros i t Ht.
  apply (for_loop_preserves (fun t => p t = p s)); [exact Ht|].
  intros j u Hu. unfold store_cell. now rewrite Hp.
Qed.

End FillLoops.

(** ** The Neo-Hookean law *)

Ltac below n i :=
  match n with
  | O => exfalso; lia
  | S ?m => destruct i as [|i]; [| below m i]
  end.

Lemma fill_D_isotropic (mu_p lambda_p : R) (D : Mat) :
  isotropic_block 3 (fill_D mu_p lambda_p D) mu_p lambda_p.
Proof.
  unfold isotropic_block, Voigt_components. cbn [Nat.eqb]. repeat split.
  - intros i Hi. below 3%nat i; reflexivity.
  - intros i j Hi Hj Hij. below 3%nat i; below 3%nat j;
      try reflexivity; now elim Hij.
  - intros i [Hlo Hhi]. below 6%nat i; try reflexivity; exfalso; lia.
  - intros i j Hi Hj Hij Hs. below 6%nat i; below 6%nat j;
      try reflexivity; try (now elim Hij); exfalso; lia.
Qed.

Lemma Compute_Stress_Tensor_cell (log : R -> R) (junk : Uninit)
  (s : CFEM_NonlinearElasticity) (i j : nat) :
  (i < 3)%nat -> (j < 3)%nat ->
  Stress_Tensor (Compute_Stress_Tensor log junk s) i j =
  Mu_J junk s * (b_Mat s i j - delta i j)
  + Lambda_J junk s * log (J_F s) * delta i j.
Proof.
  intros Hi Hj. below 3%nat i; below 3%nat j; reflexivity.
Qed.

Lemma guard_zero {A : Type} (x : R) (a b : A) :
  x = 0 -> (if Req_dec_T x 0 then a else b) = a.
Proof. intros H. destruct (Req_dec_T x 0); [reflexivity | contradiction]. Qed.

Lemma guard_nonzero {A : Type} (x : R) (a b : A) :
  x <> 0 -> (if Req_dec_T x 0 then a else b) = b.
Proof. intros H. destruct (Req_dec_T x 0); [contradiction | reflexivity]. Qed.

(** In three dimensions, with [0 < J_F], [Compute_Constitutive_Matrix] fills
    [D_Mat] as the isotropic block of [Mu_p = (Mu - Lambda log J_F) / J_F]
    and [Lambda_p = Lambda / J_F]. *)
Lemma Compute_Constitutive_Matrix_isotropic_3D (log : R -> R) (junk : Uninit)
  (s : CFEM_NonlinearElasticity) :
  nDim s = 3%nat -> 0 < J_F s ->
  isotropic_block (nDim s) (D_Mat (Compute_Constitutive_Matrix log junk s))
    ((Mu s - Lambda s * log (J_F s)) / J_F s) (Lambda s / J_F s).
Proof.
  intros HD HJ. rewrite HD.
  unfold Compute_Constitutive_Matrix, Mu_p, Lambda_p. simpl.
  rewrite !guard_nonzero by lra.
  apply fill_D_isotropic.
Qed.

(** The 36 stores of lines 407-412 do not look at [nDim]: whatever the
    dimension, row and column 2 of [D_Mat] get the entries of a normal
    stress. *)
Lemma Compute_Constitutive_Matrix_third_component (log : R -> R)
  (junk : Uninit) (s : CFEM_NonlinearElasticity) :
  0 < J_F s ->
  D_Mat (Compute_Constitutive_Matrix log junk s) 2%nat 2%nat =
    Lambda s / J_F s + 2 * ((Mu s - Lambda s * log (J_F s)) / J_F s) /\
  D_Mat (Compute_Constitutive_Matrix log junk s) 0%nat 2%nat = Lambda s / J_F s /\
  D_Mat (Compute_Constitutive_Matrix log junk s) 1%nat 2%nat = Lambda s / J_F s /\
  D_Mat (Compute_Constitutive_Matrix log junk s) 2%nat 0%nat = Lambda s / J_F s /\
  D_Mat (Compute_Constitutive_Matrix log junk s) 2%nat 1%nat = Lambda s / J_F s.
Proof.
  intros HJ. unfold Compute_Constitutive_Matrix, Mu_p, Lambda_p. simpl.
  rewrite !guard_nonzero by lra.
  split; [reflexivity|]. split; [reflexivity|]. split; [reflexivity|].
  split; reflexivity.
Qed.

(** For a 2D object the third Voigt component is the shear xy (lines
    206-209 build [Ba_Mat] in that order), so with [Lambda <> 0] the block
    is never the isotropic block of a 2D object: the cross-term of xx and
    xy holds [Lambda_p]. *)
Lemma Compute_Constitutive_Matrix_2D_shear_coupled (log : R -> R)
  (junk : Uninit) (s : CFEM_NonlinearElasticity) :
  nDim s = 2%nat -> 0 < J_F s -> Lambda s <> 0 ->
  ~ isotropic_block (nDim s) (D_Mat (Compute_Constitutive_Matrix log junk s))
      ((Mu s - Lambda s * log (J_F s)) / J_F s) (Lambda s / J_F s).
Proof.
  intros HD HJ HL (_ & _ & _ & Hcross). rewrite HD in Hcross.
  assert (H02 : D_Mat (Compute_Constitutive_Matrix log junk s) 0%nat 2%nat = 0).
  { apply Hcross; unfold Voigt_components; simpl; lia. }
  destruct (Compute_Constitutive_Matrix_third_component log junk s HJ)
    as (_ & H & _).
  rewrite H in H02.
  apply HL. apply (Rmult_eq_reg_r (/ J_F s)).
  - rewrite Rmult_0_l. exact H02.
  - apply Rinv_neq_0_compat. lra.
Qed.

(** C3. The claim says that every call with [J_F <> 0] fills [D] as the
    isotropic block.  On a 2D object in the undeformed state ([J_F = 1], so
    [Mu_p = 1] and [Lambda_p = 1]) the third Voigt component is the shear
    xy, yet the 36 stores are those of a 3D object: the diagonal shear
    entry holds [Lambda_p + 2 Mu_p = 3] where the claim says [Mu_p = 1],
    and the cross-terms of the shear with xx and yy hold [Lambda_p = 1]
    where the claim says 0. *)
Theorem Compute_Constitutive_Matrix_not_isotropic_2D :
  let s := undeformed_2D in
  let D := D_Mat (Compute_Constitutive_Matrix ln junk1 s) in
  let mu_p := (Mu s - Lambda s * ln (J_F s)) / J_F s in
  let lambda_p := Lambda s / J_F s in
  nDim s = 2%nat /\ J_F s = 1 /\ mu_p = 1 /\ lambda_p = 1 /\
  D 2%nat 2%nat = 3 /\
  D 0%nat 2%nat = 1 /\ D 1%nat 2%nat = 1 /\
  D 2%nat 0%nat = 1 /\ D 2%nat 1%nat = 1 /\
  ~ isotropic_block (nDim s) D mu_p lambda_p.
Proof.
  intros s D mu_p lambda_p.
  assert (HJ : 0 < J_F s) by (simpl; lra).
  assert (Hmu : mu_p = 1) by (unfold mu_p; simpl; rewrite ln_1; lra).
  assert (Hla : lambda_p = 1) by (unfold lambda_p; simpl; lra).
  destruct (Compute_Constitutive_Matrix_third_component ln junk1 s HJ)
    as (H22 & H02 & H12 & H20 & H21).
  fold D in H22, H02, H12, H20, H21.
  fold mu_p in H22. fold lambda_p in H22, H02, H12, H20, H21.
  rewrite Hmu, Hla in H22. rewrite Hla in H02, H12, H20, H21.
  split; [reflexivity|]. split; [reflexivity|].
  split; [exact Hmu|]. split; [exact Hla|].
  split; [rewrite H22; lra|].
  split; [exact H02|]. split; [exact H12|].
  split; [exact H20|]. split; [exact H21|].
  apply (Compute_Constitutive_Matrix_2D_shear_coupled ln junk1 s eq_refl HJ).
  simpl. lra.
Qed.

(** The sibling keeps its logarithm inside the guard of lines 402-405: with
    [J_F = 0] the block that [Compute_Constitutive_Matrix] stores does not
    depend on what [log] returns. *)
Lemma Compute_Constitutive_Matrix_guards_log (log log' : R -> R)
  (junk : Uninit) (s : CFEM_NonlinearElasticity) :
  J_F s = 0 ->
  D_Mat (Compute_Constitutive_Matrix log junk s) =
  D_Mat (Compute_Constitutive_Matrix log' junk s).
Proof.
  intros HJ. unfold Compute_Constitutive_Matrix, Mu_p, Lambda_p. simpl.
  now rewrite !guard_zero by assumption.
Qed.

(** C5. The claim says that with [J_F = 0] no computation depending on
    [J_F], such as [ln(J_F)], affects the Stress Tensor.  The guard of
    lines 425-428 covers the two coefficients only; [log(J_F)] on line 434
    is evaluated outside it.  On a 3D object with [J_F = 0], as the
    constructor leaves it, and [b_Mat] the identity, entry (0,0) of the
    Stress Tensor is the value that [log] returns at 0, so the tensor is
    not the same for every [log]. *)
Theorem Compute_Stress_Tensor_reads_log_at_zero :
  J_F singular_3D = 0 /\
  (forall log : R -> R,
     Stress_Tensor (Compute_Stress_Tensor log junk1 singular_3D) 0%nat 0%nat
     = log 0) /\
  ~ (forall (log1 log2 : R -> R) (junk : Uninit) (s : CFEM_NonlinearElasticity),
       J_F s = 0 ->
       forall i j,
         Stress_Tensor (Compute_Stress_Tensor log1 junk s) i j =
         Stress_Tensor (Compute_Stress_Tensor log2 junk s) i j).
Proof.
  assert (H00 : forall log : R -> R,
            Stress_Tensor (Compute_Stress_Tensor log junk1 singular_3D)
              0%nat 0%nat = log 0).
  { intros log. rewrite Compute_Stress_Tensor_cell by lia.
    unfold Mu_J, Lambda_J. rewrite !guard_zero by reflexivity.
    simpl. unfold Mat_identity, delta. simpl. lra. }
  split; [reflexivity|]. split; [exact H00|].
  intros H.
  specialize (H (fun _ => 0) (fun _ => 1) junk1 singular_3D eq_refl 0%nat 0%nat).
  rewrite !H00 in H. lra.
Qed.

(** ** Compute_MeanDilatation_Term *)

Lemma md_init_cell (n : nat) (s : CFEM_NonlinearElasticity) (a i : nat) :
  (a < n)%nat -> (i < nDim s)%nat -> GradNi_Mat (md_init n s) a i = 0.
Proof.
  intros Ha Hi.
  apply (fill_block_cell _ GradNi_Mat set_GradNi_Mat nDim (fun _ _ _ _ => 0));
    auto.
Qed.

Lemma md_init_frame {A : Type} (p : CFEM_NonlinearElasticity -> A) (n : nat)
  (s : CFEM_NonlinearElasticity) :
  (forall M t, p (set_GradNi_Mat M t) = p t) -> p (md_init n s) = p s.
Proof.
  apply (fill_block_frame _ GradNi_Mat set_GradNi_Mat nDim (fun _ _ _ _ => 0)).
Qed.

Lemma md_average_cell (e : CElement) (g : nat) (s : CFEM_NonlinearElasticity)
  (a i : nat) :
  (a < GetnNodes e)%nat -> (i < nDim s)%nat ->
  GradNi_Mat (md_average e g s) a i =
  GradNi_Mat s a i + GetWeight_P e g * GetGradNi_x_P e a g i * GetJ_x_P e g.
Proof.
  intros Ha Hi.
  apply (fill_block_cell _ GradNi_Mat set_GradNi_Mat nDim
           (fun a i x _ => x + GetWeight_P e g * GetGradNi_x_P e a g i * GetJ_x_P e g));
    auto.
Qed.

Lemma md_average_frame {A : Type} (p : CFEM_NonlinearElasticity -> A)
  (e : CElement) (g : nat) (s : CFEM_NonlinearElasticity) :
  (forall M t, p (set_GradNi_Mat M t) = p t) -> p (md_average e g s) = p s.
Proof.
  apply (fill_block_frame _ GradNi_Mat set_GradNi_Mat nDim
           (fun a i x _ => x + GetWeight_P e g * GetGradNi_x_P e a g i * GetJ_x_P e g)).
Qed.

Lemma md_divide_frame {A : Type} (p : CFEM_NonlinearElasticity -> A)
  (n : nat) (vol : R) (s : CFEM_NonlinearElasticity) :
  (forall M t, p (set_GradNi_Mat M t) = p t) -> p (md_divide n vol s) = p s.
Proof.
  apply (fill_block_frame _ GradNi_Mat set_GradNi_Mat nDim
           (fun _ _ x _ => x / vol)).
Qed.

Lemma pressure_block_cell (k vol : R) (a b : nat) (s : CFEM_NonlinearElasticity)
  (i j : nat) :
  (i < nDim s)%nat -> (j < nDim s)%nat ->
  KAux_P_ab (pressure_block k vol a b s) i j =
  k * vol * GradNi_Mat s a i * GradNi_Mat s b j.
Proof.
  intros Hi Hj.
  apply (fill_block_cell _ KAux_P_ab set_KAux_P_ab nDim
           (fun i j _ t => k * vol * GradNi_Mat t a i * GradNi_Mat t b j));
    auto.
Qed.

Lemma pressure_block_frame {A : Type} (p : CFEM_NonlinearElasticity -> A)
  (k vol : R) (a b : nat) (s : CFEM_NonlinearElasticity) :
  (forall M t, p (set_KAux_P_ab M t) = p t) ->
  p (pressure_block k vol a b s) = p s.
Proof.
  apply (fill_block_frame _ KAux_P_ab set_KAux_P_ab nDim
           (fun i j _ t => k * vol * GradNi_Mat t a i * GradNi_Mat t b j)).
Qed.

(** The accumulation loop leaves in [GradNi_Mat] the volume-weighted sums of
    the gradients, and in the two locals the two volumes. *)
Lemma md_accumulate_spec (s : CFEM_NonlinearElasticity) (e : CElement) :
  let v := md_accumulate s e in
  let n := GetnGaussPointsP e in
  nDim (md_this v) = nDim s /\
  Kappa (md_this v) = Kappa s /\
  Vol_current v = sum_upto n (fun g => GetWeight_P e g * GetJ_x_P e g) /\
  Vol_reference v = sum_upto n (fun g => GetWeight_P e g * GetJ_X_P e g) /\
  forall a i, (a < GetnNodes e)%nat -> (i < nDim s)%nat ->
    GradNi_Mat (md_this v) a i =
    sum_upto n (fun g => GetWeight_P e g * GetGradNi_x_P e a g i * GetJ_x_P e g).
Proof.
  unfold md_accumulate.
  apply (for_loop_ind (fun n v =>
    nDim (md_this v) = nDim s /\
    Kappa (md_this v) = Kappa s /\
    Vol_current v = sum_upto n (fun g => GetWeight_P e g * GetJ_x_P e g) /\
    Vol_reference v = sum_upto n (fun g => GetWeight_P e g * GetJ_X_P e g) /\
    forall a i, (a < GetnNodes e)%nat -> (i < nDim s)%nat ->
      GradNi_Mat (md_this v) a i =
      sum_upto n (fun g => GetWeight_P e g * GetGradNi_x_P e a g i * GetJ_x_P e g)));
    [lia| |].
  - simpl. repeat split.
    + now apply md_init_frame.
    + now apply md_init_frame.
    + intros a i Ha Hi. now apply md_init_cell.
  - intros g v Hg (HD & HK & Hc & Hr & HG). simpl. repeat split.
    + rewrite md_average_frame; auto.
    + rewrite md_average_frame; auto.
    + now rewrite Hc.
    + now rewrite Hr.
    + intros a i Ha Hi. rewrite md_average_cell by (rewrite ?HD; assumption).
      now rewrite HG.
Qed.

Lemma md_normalise_nDim (junk : Uninit) (n : nat) (v : Volumes) :
  nDim (fst (md_normalise junk n v)) = nDim (md_this v).
Proof.
  unfold md_normalise. destruct (md_guard v); simpl; [|reflexivity].
  now apply md_divide_frame.
Qed.

Lemma md_guard_false (v : Volumes) :
  Vol_current v = 0 \/ Vol_reference v = 0 -> md_guard v = false.
Proof.
  unfold md_guard. intros [H|H].
  - now rewrite guard_zero.
  - destruct (Req_dec_T (Vol_current v) 0); [reflexivity|].
    now rewrite guard_zero.
Qed.

Lemma Set_Kk_ab_hit (val : Mat) (a b : nat) (e : CElement) :
  Kk_ab (Set_Kk_ab val a b e) a b = val.
Proof. simpl. unfold same_pair. now rewrite !Nat.eqb_refl. Qed.

Lemma Set_Kk_ab_miss (val : Mat) (a b a' b' : nat) (e : CElement) :
  a' <> a \/ b' <> b -> Kk_ab (Set_Kk_ab val a b e) a' b' = Kk_ab e a' b'.
Proof.
  intros H. simpl. unfold same_pair.
  destruct (Nat.eqb_spec a' a); destruct (Nat.eqb_spec b' b); simpl;
    try reflexivity.
  destruct H; contradiction.
Qed.

(** The final loop: every pair's block is the stored product, and the
    averaged gradients are only read. *)
Lemma md_write_spec (n : nat) (k vol : R) (s : CFEM_NonlinearElasticity)
  (e : CElement) :
  let r := md_write n k vol (s, e) in
  GradNi_Mat (fst r) = GradNi_Mat s /\
  nDim (fst r) = nDim s /\
  forall a b i j, (a < n)%nat -> (b < n)%nat ->
    (i < nDim s)%nat -> (j < nDim s)%nat ->
    Kk_ab (snd r) a b i j = k * vol * GradNi_Mat s a i * GradNi_Mat s b j.
Proof.
  unfold md_write.
  apply (for_loop_ind (fun m r =>
    GradNi_Mat (fst r) = GradNi_Mat s /\
    nDim (fst r) = nDim s /\
    forall a b i j, (a < m)%nat -> (b < n)%nat ->
      (i < nDim s)%nat -> (j < nDim s)%nat ->
      Kk_ab (snd r) a b i j = k * vol * GradNi_Mat s a i * GradNi_Mat s b j));
    [lia| |].
  - simpl. repeat split. intros; lia.
  - intros a0 r Ha0 (HG & HD & HK).
    assert (Hrow :
      let r' := for_loop 0 n (fun jNode se =>
          let s0 := pressure_block k vol a0 jNode (fst se) in
          (s0, Set_Kk_ab (KAux_P_ab s0) a0 jNode (snd se))) r in
      GradNi_Mat (fst r') = GradNi_Mat s /\
      nDim (fst r') = nDim s /\
      (forall a b i j, (a < a0)%nat -> (b < n)%nat ->
         (i < nDim s)%nat -> (j < nDim s)%nat ->
         Kk_ab (snd r') a b i j = k * vol * GradNi_Mat s a i * GradNi_Mat s b j) /\
      (forall b i j, (b < n)%nat ->
         (i < nDim s)%nat -> (j < nDim s)%nat ->
         Kk_ab (snd r') a0 b i j = k * vol * GradNi_Mat s a0 i * GradNi_Mat s b j)).
    { apply (for_loop_ind (fun m r' =>
        GradNi_Mat (fst r') = GradNi_Mat s /\
        nDim (fst r') = nDim s /\
        (forall a b i j, (a < a0)%nat -> (b < n)%nat ->
           (i < nDim s)%nat -> (j < nDim s)%nat ->
           Kk_ab (snd r') a b i j = k * vol * GradNi_Mat s a i * GradNi_Mat s b j) /\
        (forall b i j, (b < m)%nat ->
           (i < nDim s)%nat -> (j < nDim s)%nat ->
           Kk_ab (snd r') a0 b i j = k * vol * GradNi_Mat s a0 i * GradNi_Mat s b j)));
        [lia| |].
      - repeat split; auto. intros; lia.
      - intros b0 r' Hb0 (HG' & HD' & Hold & Hnew).
        cbv beta zeta. cbn [fst snd]. repeat split.
        + rewrite pressure_block_frame; auto.
        + rewrite pressure_block_frame; auto.
        + intros a b i j Ha Hb Hi Hj.
          rewrite Set_Kk_ab_miss by (left; lia). now apply Hold.
        + intros b i j Hb Hi Hj.
          destruct (Nat.eq_dec b b0) as [->|Hne].
          * rewrite Set_Kk_ab_hit.
            rewrite pressure_block_cell by (rewrite HD'; assumption).
            now rewrite HG'.
          * rewrite Set_Kk_ab_miss by (right; assumption).
            apply Hnew; auto. lia. }
    destruct Hrow as (HG' & HD' & Hold & Hnew). repeat split; auto.
    intros a b i j Ha Hb Hi Hj.
    destruct (Nat.eq_dec a a0) as [->|Hne].
    + now apply Hnew.
    + apply Hold; auto. lia.
Qed.

(** C7. After the accumulation loop, [Compute_MeanDilatation_Term] leaves in
    the pressure-stiffness block of every node pair (a,b) the entries
    [Avg_kappa * Vol_current * GradNi_Mat[a][i] * GradNi_Mat[b][j]], the
    averaged gradients and [Avg_kappa] being those that come out of the
    guarded block; what the block held before does not enter the result. *)
Theorem Compute_MeanDilatation_Term_block (junk : Uninit)
  (s : CFEM_NonlinearElasticity) (e : CElement) (a b i j : nat) :
  (a < GetnNodes e)%nat -> (b < GetnNodes e)%nat ->
  (i < nDim s)%nat -> (j < nDim s)%nat ->
  let v := md_accumulate s e in
  let sk := md_normalise junk (GetnNodes e) v in
  Kk_ab (snd (Compute_MeanDilatation_Term junk s e)) a b i j =
    snd sk * Vol_current v * GradNi_Mat (fst sk) a i * GradNi_Mat (fst sk) b j /\
  forall K0 : nat -> nat -> Mat,
    Kk_ab (snd (Compute_MeanDilatation_Term junk s (set_Kk_ab K0 e))) a b i j =
    Kk_ab (snd (Compute_MeanDilatation_Term junk s e)) a b i j.
Proof.
  intros Ha Hb Hi Hj v sk.
  assert (HD : nDim (fst sk) = nDim s).
  { unfold sk. rewrite md_normalise_nDim. apply (md_accumulate_spec s e). }
  assert (Hmain : forall e0,
    Kk_ab (snd (md_write (GetnNodes e) (snd sk) (Vol_current v) (fst sk, e0))) a b i j =
    snd sk * Vol_current v * GradNi_Mat (fst sk) a i * GradNi_Mat (fst sk) b j).
  { intros e0.
    apply (md_write_spec (GetnNodes e) (snd sk) (Vol_current v) (fst sk) e0);
      rewrite ?HD; assumption. }
  split.
  - apply Hmain.
  - intros K0.
    transitivity
      (snd sk * Vol_current v * GradNi_Mat (fst sk) a i * GradNi_Mat (fst sk) b j).
    + apply (Hmain (set_Kk_ab K0 e)).
    + symmetry. apply Hmain.
Qed.

Lemma Compute_MeanDilatation_Term_block_witness :
  (0 < GetnNodes triangle)%nat /\ (1 < GetnNodes triangle)%nat /\
  (0 < nDim stale_2D)%nat /\ (1 < nDim stale_2D)%nat /\
  let v := md_accumulate stale_2D triangle in
  let sk := md_normalise junk1 (GetnNodes triangle) v in
  Kk_ab (snd (Compute_MeanDilatation_Term junk1 stale_2D triangle)) 0 1 0%nat 1%nat =
    snd sk * Vol_current v * GradNi_Mat (fst sk) 0%nat 0%nat
    * GradNi_Mat (fst sk) 1%nat 1%nat.
Proof.
  repeat (split; [simpl; lia|]).
  apply (Compute_MeanDilatation_Term_block junk1 stale_2D triangle 0 1 0 1);
    simpl; lia.
Defined.

(** C8, as stated, fails: with a zero current volume the averaged gradients
    do not keep the values they held before the call. *)
Lemma averaged_gradients_not_retained :
  ~ (forall (junk : Uninit) (s : CFEM_NonlinearElasticity) (e : CElement),
       Vol_current (md_accumulate s e) = 0 \/
       Vol_reference (md_accumulate s e) = 0 ->
       forall a i,
         GradNi_Mat (fst (Compute_MeanDilatation_Term junk s e)) a i =
         GradNi_Mat s a i).
Proof.
  intros H.
  assert (Hv : Vol_current (md_accumulate stale_2D triangle_collapsed) = 0).
  { rewrite (proj1 (proj2 (proj2 (md_accumulate_spec _ _)))). simpl. lra. }
  specialize (H junk1 stale_2D triangle_collapsed (or_introl Hv) 0%nat 0%nat).
  assert (Hr : GradNi_Mat
                 (fst (Compute_MeanDilatation_Term junk1 stale_2D triangle_collapsed))
                 0%nat 0%nat = 0 + 1 / 2 * -1 * 0).
  { unfold Compute_MeanDilatation_Term, md_normalise.
    rewrite md_guard_false by (left; exact Hv).
    cbn [fst snd].
    rewrite (proj1 (md_write_spec _ _ _ _ _)).
    rewrite (proj2 (proj2 (proj2 (proj2
               (md_accumulate_spec stale_2D triangle_collapsed)))))
      by (simpl; lia).
    reflexivity. }
  rewrite Hr in H.
  change (GradNi_Mat stale_2D 0%nat 0%nat) with 7 in H.
  lra.
Qed.

(** C8, amended. If the accumulated current volume or the accumulated
    reference volume is zero, [Avg_kappa] is not assigned by the call, and
    the averaged gradients are left as the sums accumulated by this call,
    [sum over g of Weight * GradNi_x_P * Jac_x], not divided by the current
    volume. *)
Theorem Compute_MeanDilatation_Term_degenerate (junk : Uninit)
  (s : CFEM_NonlinearElasticity) (e : CElement) :
  sum_upto (GetnGaussPointsP e) (fun g => GetWeight_P e g * GetJ_x_P e g) = 0 \/
  sum_upto (GetnGaussPointsP e) (fun g => GetWeight_P e g * GetJ_X_P e g) = 0 ->
  snd (md_normalise junk (GetnNodes e) (md_accumulate s e)) = Avg_kappa_0 junk /\
  forall a i, (a < GetnNodes e)%nat -> (i < nDim s)%nat ->
    GradNi_Mat (fst (Compute_MeanDilatation_Term junk s e)) a i =
    sum_upto (GetnGaussPointsP e)
      (fun g => GetWeight_P e g * GetGradNi_x_P e a g i * GetJ_x_P e g).
Proof.
  intros Hvol.
  destruct (md_accumulate_spec s e) as (HD & HK & Hc & Hr & HG).
  assert (Hguard : md_guard (md_accumulate s e) = false).
  { apply md_guard_false. rewrite Hc, Hr. exact Hvol. }
  unfold Compute_MeanDilatation_Term, md_normalise. rewrite Hguard.
  cbn [fst snd]. split; [reflexivity|].
  intros a i Ha Hi.
  rewrite (proj1 (md_write_spec _ _ _ _ _)). now apply HG.
Qed.

Lemma Compute_MeanDilatation_Term_degenerate_witness :
  (sum_upto (GetnGaussPointsP triangle_collapsed)
     (fun g => GetWeight_P triangle_collapsed g * GetJ_x_P triangle_collapsed g) = 0 \/
   sum_upto (GetnGaussPointsP triangle_collapsed)
     (fun g => GetWeight_P triangle_collapsed g * GetJ_X_P triangle_collapsed g) = 0) /\
  snd (md_normalise junk1 (GetnNodes triangle_collapsed)
         (md_accumulate stale_2D triangle_collapsed)) = Avg_kappa_0 junk1.
Proof.
  assert (H : sum_upto (GetnGaussPointsP triangle_collapsed)
     (fun g => GetWeight_P triangle_collapsed g * GetJ_x_P triangle_collapsed g) = 0).
  { simpl. lra. }
  split.
  - left. exact H.
  - apply (Compute_MeanDilatation_Term_degenerate junk1 stale_2D triangle_collapsed).
    left. exact H.
Defined.

(** ** Compute_Tangent_Matrix: what the routine leaves alone *)

Section TangentFrame.

Variable log : R -> R.
Variable junk : Uninit.

(** A property of the object that survives every store the routine makes:
    stores into [b_Mat], [J_F], [D_Mat], [Ba_Mat], [Bb_Mat], [GradNi_Mat],
    [currentCoord], [KAux_ab], and the stores into [F_Mat]. *)
Variable Q : CFEM_NonlinearElasticity -> Prop.

Hypothesis Q_b_Mat : forall M t, Q t -> Q (set_b_Mat M t).
Hypothesis Q_J_F : forall x t, Q t -> Q (set_J_F x t).
Hypothesis Q_D_Mat : forall M t, Q t -> Q (set_D_Mat M t).
Hypothesis Q_Ba_Mat : forall M t, Q t -> Q (set_Ba_Mat M t).
Hypothesis Q_Bb_Mat : forall M t, Q t -> Q (set_Bb_Mat M t).
Hypothesis Q_GradNi_Mat : forall M t, Q t -> Q (set_GradNi_Mat M t).
Hypothesis Q_currentCoord : forall M t, Q t -> Q (set_currentCoord M t).
Hypothesis Q_KAux_ab : forall M t, Q t -> Q (set_KAux_ab M t).
Hypothesis Q_F_store : forall i j x t, Q t -> Q (F_store i j x t).

Ltac keep_loop :=
  repeat (apply (for_loop_preserves Q); [| intros ? ? ?]).

Lemma init_Ba_Bb_keeps (s : CFEM_NonlinearElasticity) :
  Q s -> Q (init_Ba_Bb junk s).
Proof. intros H. unfold init_Ba_Bb. keep_loop; auto. Qed.

Lemma init_F_b_keeps (s : CFEM_NonlinearElasticity) : Q s -> Q (init_F_b s).
Proof. intros H. unfold init_F_b. keep_loop; auto. Qed.

Lemma retrieve_node_keeps (e : CElement) (g n : nat)
  (s : CFEM_NonlinearElasticity) : Q s -> Q (retrieve_node e g n s).
Proof. intros H. unfold retrieve_node. keep_loop; auto. Qed.

Lemma accumulate_F_keeps (n : nat) (s : CFEM_NonlinearElasticity) :
  Q s -> Q (accumulate_F n s).
Proof. intros H. unfold accumulate_F. keep_loop; auto. Qed.

Lemma plane_strain_keeps (s : CFEM_NonlinearElasticity) :
  Q s -> Q (plane_strain s).
Proof. intros H. unfold plane_strain. destruct (nDim s =? 2)%nat; auto. Qed.

Lemma deformation_gradient_node_keeps (e : CElement) (g n : nat)
  (s : CFEM_NonlinearElasticity) :
  Q s -> Q (deformation_gradient_node e g n s).
Proof.
  intros H. unfold deformation_gradient_node.
  now apply plane_strain_keeps, accumulate_F_keeps, retrieve_node_keeps.
Qed.

Lemma left_Cauchy_Green_keeps (s : CFEM_NonlinearElasticity) :
  Q s -> Q (left_Cauchy_Green s).
Proof. intros H. unfold left_Cauchy_Green. keep_loop; auto. Qed.

Lemma kinematics_keeps (e : CElement) (g : nat) (s : CFEM_NonlinearElasticity) :
  Q s -> Q (kinematics e g s).
Proof.
  intros H. unfold kinematics.
  apply left_Cauchy_Green_keeps. unfold determinant_F. apply Q_J_F.
  apply (for_loop_preserves Q).
  - now apply init_F_b_keeps.
  - intros n t Ht. now apply deformation_gradient_node_keeps.
Qed.

Lemma material_block_keeps (W J : R) (Kc : Vec) (s : CFEM_NonlinearElasticity) :
  Q s -> Q (material_block junk W J Kc s).
Proof.
  intros H. unfold material_block.
  apply (for_loop_preserves Q); [assumption|]. intros i t Ht.
  apply (for_loop_preserves Q); [assumption|]. intros j u Hu.
  apply (for_loop_preserves Q); auto.
Qed.

Lemma pair_block_keeps (W J : R) (a b : nat) (fr : Frame) :
  Q (this fr) -> Q (this (pair_block junk W J a b fr)).
Proof.
  intros H. unfold pair_block. cbn [this].
  now apply material_block_keeps, Q_Bb_Mat.
Qed.

Lemma stiffness_node_keeps (W J : R) (a : nat) (fr : Frame) :
  Q (this fr) -> Q (this (stiffness_node log junk W J a fr)).
Proof.
  intros H. unfold stiffness_node.
  apply (for_loop_preserves (fun fr => Q (this fr))).
  - cbn [this]. unfold Compute_Constitutive_Matrix. now apply Q_D_Mat, Q_Ba_Mat.
  - intros b t Ht. now apply pair_block_keeps.
Qed.

Lemma Gauss_point_keeps (g : nat) (fr : Frame) :
  Q (this fr) -> Q (this (Gauss_point log junk g fr)).
Proof.
  intros H. unfold Gauss_point.
  apply (for_loop_preserves (fun fr => Q (this fr))).
  - cbn [this]. now apply kinematics_keeps.
  - intros a t Ht. now apply stiffness_node_keeps.
Qed.

Lemma Compute_Tangent_Matrix_keeps (s : CFEM_NonlinearElasticity) (e : CElement) :
  Q s -> Q (fst (Compute_Tangent_Matrix log junk s e)).
Proof.
  intros H. unfold Compute_Tangent_Matrix. cbn [fst].
  apply (for_loop_preserves (fun fr => Q (this fr))).
  - cbn [this]. now apply init_Ba_Bb_keeps.
  - intros g t Ht. now apply Gauss_point_keeps.
Qed.

End TangentFrame.

Ltac frame_side :=
  intros; unfold F_store;
  try match goal with |- context [if ?c then _ else _] => destruct c end;
  simpl; auto.

(** [Compute_Tangent_Matrix] makes no store into [Stress_Tensor]. *)
Lemma Compute_Tangent_Matrix_Stress_Tensor (log : R -> R) (junk : Uninit)
  (s : CFEM_NonlinearElasticity) (e : CElement) :
  Stress_Tensor (fst (Compute_Tangent_Matrix log junk s e)) = Stress_Tensor s.
Proof.
  apply (Compute_Tangent_Matrix_keeps log junk
           (fun t => Stress_Tensor t = Stress_Tensor s));
    solve [reflexivity | frame_side].
Qed.

Lemma F_store_nDim (i j : nat) (x : R) (s : CFEM_NonlinearElasticity) :
  nDim (F_store i j x s) = nDim s.
Proof. unfold F_store. now destruct (_ && _)%bool. Qed.

Lemma kinematics_nDim (e : CElement) (g : nat) (s : CFEM_NonlinearElasticity) :
  nDim (kinematics e g s) = nDim s.
Proof.
  apply (kinematics_keeps (fun t => nDim t = nDim s));
    solve [reflexivity | frame_side].
Qed.

(** Once recorded, a fault stays recorded. *)
Lemma Compute_Tangent_Matrix_fault_kept (log : R -> R) (junk : Uninit)
  (p : nat * nat) :
  (forall g fr, In p (F_fault (this fr)) ->
     In p (F_fault (this (Gauss_point log junk g fr)))) /\
  (forall e g n t, In p (F_fault t) ->
     In p (F_fault (deformation_gradient_node e g n t))) /\
  (forall t, In p (F_fault t) -> In p (F_fault (left_Cauchy_Green t))) /\
  (forall W J a fr, In p (F_fault (this fr)) ->
     In p (F_fault (this (stiffness_node log junk W J a fr)))).
Proof.
  repeat split; intros.
  - apply (Gauss_point_keeps log junk (fun t => In p (F_fault t)));
      solve [assumption | frame_side].
  - apply (deformation_gradient_node_keeps (fun t => In p (F_fault t)));
      solve [assumption | frame_side].
  - apply (left_Cauchy_Green_keeps (fun t => In p (F_fault t)));
      solve [assumption | frame_side].
  - apply (stiffness_node_keeps log junk (fun t => In p (F_fault t)));
      solve [assumption | frame_side].
Qed.

(** In two dimensions with at least one node and one Gauss point, the
    store of line 178 falls outside the 3x3 buffer. *)
Lemma plane_strain_store_faults (log : R -> R) (junk : Uninit)
  (s : CFEM_NonlinearElasticity) (e : CElement) :
  nDim s = 2%nat -> (0 < GetnNodes e)%nat -> (0 < GetnGaussPoints e)%nat ->
  In (3, 3)%nat (F_fault (fst (Compute_Tangent_Matrix log junk s e))).
Proof.
  intros HD Hn Hg.
  destruct (Compute_Tangent_Matrix_fault_kept log junk (3, 3)%nat)
    as (KG & KN & KB & KS).
  unfold Compute_Tangent_Matrix. cbn [fst].
  change (GetnGaussPoints (ComputeGrad_Linear (clearElement e)))
    with (GetnGaussPoints e).
  rewrite for_loop_first by assumption.
  apply (for_loop_preserves (fun fr => In (3, 3)%nat (F_fault (this fr))));
    [| intros g t Ht; now apply KG].
  unfold Gauss_point. cbn [this element].
  change (GetnNodes (ComputeGrad_Linear (clearElement e))) with (GetnNodes e).
  apply (for_loop_preserves (fun fr => In (3, 3)%nat (F_fault (this fr))));
    [| intros a t Ht; now apply KS].
  cbn [this]. unfold kinematics.
  apply KB. unfold determinant_F. cbn [F_fault set_J_F].
  change (GetnNodes (ComputeGrad_Linear (clearElement e))) with (GetnNodes e).
  rewrite for_loop_first by assumption.
  apply (for_loop_preserves (fun t => In (3, 3)%nat (F_fault t)));
    [| intros n t Ht; now apply KN].
  unfold deformation_gradient_node, plane_strain.
  set (t := accumulate_F 0 _).
  assert (Ht : nDim t = 2%nat).
  { unfold t. rewrite <- HD.
    transitivity (nDim (init_Ba_Bb junk s)).
    - apply (accumulate_F_keeps (fun u => nDim u = nDim (init_Ba_Bb junk s)));
        try solve [frame_side].
      apply (retrieve_node_keeps (fun u => nDim u = nDim (init_Ba_Bb junk s)));
        try solve [frame_side].
      apply (init_F_b_keeps (fun u => nDim u = nDim (init_Ba_Bb junk s)));
        solve [reflexivity | frame_side].
    - apply (init_Ba_Bb_keeps junk (fun u => nDim u = nDim s));
        solve [reflexivity | frame_side]. }
  rewrite Ht. cbn [Nat.eqb]. unfold F_store. cbn. now left.
Qed.

(** ** Compute_Tangent_Matrix: the kinematics of a Gauss point *)

Ltac run := lazy -[Rplus Rmult Rminus Ropp Rdiv Rinv IZR ln].

(** Two dimensions: the third row and the third column of [F_Mat] are
    neither zeroed nor written, so they come out as they went in. *)
Lemma init_F_b_2D (s : CFEM_NonlinearElasticity) (i j : nat) :
  nDim s = 2%nat -> (2 <= i \/ 2 <= j)%nat ->
  F_Mat (init_F_b s) i j = F_Mat s i j.
Proof.
  intros HD Hij. destruct s; simpl in *; subst.
  destruct i as [|[|i]]; destruct j as [|[|j]];
    try (exfalso; lia); reflexivity.
Qed.

Lemma accumulate_F_2D (n : nat) (s : CFEM_NonlinearElasticity) (i j : nat) :
  nDim s = 2%nat -> (2 <= i \/ 2 <= j)%nat ->
  F_Mat (accumulate_F n s) i j = F_Mat s i j.
Proof.
  intros HD Hij. destruct s; simpl in *; subst.
  destruct i as [|[|i]]; destruct j as [|[|j]];
    try (exfalso; lia); reflexivity.
Qed.

Lemma plane_strain_2D (s : CFEM_NonlinearElasticity) :
  nDim s = 2%nat -> F_Mat (plane_strain s) = F_Mat s.
Proof. intros HD. unfold plane_strain. rewrite HD. reflexivity. Qed.

Lemma retrieve_node_F_Mat (e : CElement) (g n : nat)
  (s : CFEM_NonlinearElasticity) :
  F_Mat (retrieve_node e g n s) = F_Mat s /\
  nDim (retrieve_node e g n s) = nDim s.
Proof.
  apply (retrieve_node_keeps
           (fun t => F_Mat t = F_Mat s /\ nDim t = nDim s)); auto.
Qed.

Lemma accumulate_F_nDim (n : nat) (s : CFEM_NonlinearElasticity) :
  nDim (accumulate_F n s) = nDim s.
Proof.
  apply (accumulate_F_keeps (fun t => nDim t = nDim s));
    [intros; now rewrite F_store_nDim | reflexivity].
Qed.

Lemma init_F_b_nDim (s : CFEM_NonlinearElasticity) :
  nDim (init_F_b s) = nDim s.
Proof.
  apply (init_F_b_keeps (fun t => nDim t = nDim s));
    [auto | intros; now rewrite F_store_nDim | reflexivity].
Qed.

Lemma plane_strain_nDim (s : CFEM_NonlinearElasticity) :
  nDim (plane_strain s) = nDim s.
Proof.
  unfold plane_strain. destruct (nDim s =? 2)%nat; [|reflexivity].
  apply F_store_nDim.
Qed.

Lemma left_Cauchy_Green_F_Mat (s : CFEM_NonlinearElasticity) :
  F_Mat (left_Cauchy_Green s) = F_Mat s.
Proof.
  apply (left_Cauchy_Green_keeps (fun t => F_Mat t = F_Mat s)); auto.
Qed.

Lemma kinematics_2D_closure_missing (e : CElement) (g : nat)
  (s : CFEM_NonlinearElasticity) (i j : nat) :
  nDim s = 2%nat -> (2 <= i \/ 2 <= j)%nat ->
  F_Mat (kinematics e g s) i j = F_Mat s i j.
Proof.
  intros HD Hij. unfold kinematics.
  rewrite left_Cauchy_Green_F_Mat. unfold determinant_F. cbn [F_Mat set_J_F].
  apply (for_loop_preserves
           (fun t => nDim t = 2%nat /\ F_Mat t i j = F_Mat s i j)).
  - split; [now rewrite init_F_b_nDim | now apply init_F_b_2D].
  - intros n t [Ht HF]. unfold deformation_gradient_node.
    destruct (retrieve_node_F_Mat e g n t) as [HF1 HD1].
    assert (HD2 : nDim (accumulate_F n (retrieve_node e g n t)) = 2%nat)
      by (rewrite accumulate_F_nDim; congruence).
    split.
    + rewrite plane_strain_nDim. exact HD2.
    + rewrite plane_strain_2D by exact HD2.
      rewrite accumulate_F_2D by (assumption || congruence).
      now rewrite HF1.
Qed.

(** Three dimensions: every cell of [F_Mat] and [b_Mat] is zeroed and
    rebuilt. *)
Lemma init_F_b_3D (s : CFEM_NonlinearElasticity) (i j : nat) :
  nDim s = 3%nat -> (i < 3)%nat -> (j < 3)%nat ->
  F_Mat (init_F_b s) i j = 0 /\ b_Mat (init_F_b s) i j = 0.
Proof.
  intros HD Hi Hj. destruct s; simpl in *; subst.
  below 3%nat i; below 3%nat j; split; reflexivity.
Qed.

Lemma retrieve_node_3D (e : CElement) (g n : nat)
  (s : CFEM_NonlinearElasticity) (i : nat) :
  nDim s = 3%nat -> (i < 3)%nat ->
  currentCoord (retrieve_node e g n s) n i = GetCurr_Coord e n i /\
  GradNi_Mat (retrieve_node e g n s) n i = GetGradNi_X e n g i.
Proof.
  intros HD Hi. destruct s; simpl in *; subst.
  below 3%nat i; split; cbn; unfold upd2; rewrite ?Nat.eqb_refl; reflexivity.
Qed.

Lemma accumulate_F_3D (n : nat) (s : CFEM_NonlinearElasticity) (i j : nat) :
  nDim s = 3%nat -> (i < 3)%nat -> (j < 3)%nat ->
  F_Mat (accumulate_F n s) i j =
  F_Mat s i j + currentCoord s n i * GradNi_Mat s n j.
Proof.
  intros HD Hi Hj. destruct s; simpl in *; subst.
  below 3%nat i; below 3%nat j; reflexivity.
Qed.

Lemma deformation_gradient_node_b_Mat (e : CElement) (g n : nat)
  (s : CFEM_NonlinearElasticity) :
  b_Mat (deformation_gradient_node e g n s) = b_Mat s.
Proof.
  apply (deformation_gradient_node_keeps (fun t => b_Mat t = b_Mat s));
    solve [reflexivity | frame_side].
Qed.

Lemma deformation_gradient_node_3D (e : CElement) (g n : nat)
  (s : CFEM_NonlinearElasticity) (i j : nat) :
  nDim s = 3%nat -> (i < 3)%nat -> (j < 3)%nat ->
  F_Mat (deformation_gradient_node e g n s) i j =
  F_Mat s i j + GetCurr_Coord e n i * GetGradNi_X e n g j.
Proof.
  intros HD Hi Hj. unfold deformation_gradient_node.
  destruct (retrieve_node_F_Mat e g n s) as [HF1 HD1].
  unfold plane_strain. rewrite accumulate_F_nDim, HD1, HD. cbn [Nat.eqb].
  rewrite accumulate_F_3D by (assumption || congruence).
  rewrite HF1.
  rewrite (proj1 (retrieve_node_3D e g n s i HD Hi)).
  now rewrite (proj2 (retrieve_node_3D e g n s j HD Hj)).
Qed.

Lemma left_Cauchy_Green_cell (s : CFEM_NonlinearElasticity) (i j : nat) :
  (i < 3)%nat -> (j < 3)%nat ->
  b_Mat (left_Cauchy_Green s) i j =
  b_Mat s i j + F_Mat s i 0%nat * F_Mat s j 0%nat
              + F_Mat s i 1%nat * F_Mat s j 1%nat
              + F_Mat s i 2%nat * F_Mat s j 2%nat.
Proof.
  intros Hi Hj. destruct s. below 3%nat i; below 3%nat j; reflexivity.
Qed.

(** In three dimensions the claim of section 8 of the specification holds:
    if the current coordinates reproduce the identity through the
    reference gradients, then [F = I], [J_F = 1], [b = I], and the stress
    computed from that state is zero. *)
Lemma identity_deformation_3D (junk : Uninit) (e : CElement) (g : nat)
  (s : CFEM_NonlinearElasticity) :
  nDim s = 3%nat ->
  (forall i j, (i < 3)%nat -> (j < 3)%nat ->
     sum_upto (GetnNodes e)
       (fun n => GetCurr_Coord e n i * GetGradNi_X e n g j) = delta i j) ->
  let s' := kinematics e g s in
  (forall i j, (i < 3)%nat -> (j < 3)%nat -> F_Mat s' i j = delta i j) /\
  J_F s' = 1 /\
  (forall i j, (i < 3)%nat -> (j < 3)%nat -> b_Mat s' i j = delta i j) /\
  (forall i j, (i < 3)%nat -> (j < 3)%nat ->
     Stress_Tensor (Compute_Stress_Tensor ln junk s') i j = 0).
Proof.
  intros HD Hid s'.
  set (t := for_loop 0 (GetnNodes e) (deformation_gradient_node e g) (init_F_b s)).
  assert (Ht : nDim t = 3%nat /\
               (forall i j, (i < 3)%nat -> (j < 3)%nat -> F_Mat t i j = delta i j) /\
               (forall i j, (i < 3)%nat -> (j < 3)%nat -> b_Mat t i j = 0)).
  { assert (Hloop :
      nDim t = 3%nat /\
      (forall i j, (i < 3)%nat -> (j < 3)%nat ->
         F_Mat t i j = sum_upto (GetnNodes e)
           (fun n => GetCurr_Coord e n i * GetGradNi_X e n g j)) /\
      (forall i j, (i < 3)%nat -> (j < 3)%nat -> b_Mat t i j = 0)).
    { unfold t.
      apply (for_loop_ind (fun k u =>
        nDim u = 3%nat /\
        (forall i j, (i < 3)%nat -> (j < 3)%nat ->
           F_Mat u i j = sum_upto k
             (fun n => GetCurr_Coord e n i * GetGradNi_X e n g j)) /\
        (forall i j, (i < 3)%nat -> (j < 3)%nat -> b_Mat u i j = 0)));
        [lia| |].
      - split; [now rewrite init_F_b_nDim|].
        split; intros i j Hi Hj; now apply init_F_b_3D.
      - intros k u Hk (Hu & HF & Hb). split; [|split].
        + unfold deformation_gradient_node.
          rewrite plane_strain_nDim, accumulate_F_nDim.
          now rewrite (proj2 (retrieve_node_F_Mat e g k u)).
        + intros i j Hi Hj.
          rewrite deformation_gradient_node_3D by assumption.
          simpl. now rewrite HF.
        + intros i j Hi Hj. rewrite deformation_gradient_node_b_Mat.
          now apply Hb. }
    destruct Hloop as (H1 & H2 & H3). repeat split; auto.
    intros i j Hi Hj. rewrite H2 by assumption. now apply Hid. }
  destruct Ht as (Hn & HF & Hb).
  assert (HF' : forall i j, (i < 3)%nat -> (j < 3)%nat -> F_Mat s' i j = delta i j).
  { intros i j Hi Hj. unfold s', kinematics. fold t.
    rewrite left_Cauchy_Green_F_Mat. now apply HF. }
  assert (HJ : J_F s' = 1).
  { unfold s', kinematics. fold t.
    assert (HJ0 : J_F (left_Cauchy_Green (determinant_F t)) = J_F (determinant_F t)).
    { apply (left_Cauchy_Green_keeps
               (fun u => J_F u = J_F (determinant_F t))); auto. }
    rewrite HJ0. unfold determinant_F. cbn [J_F set_J_F].
    rewrite !HF by lia. unfold delta. simpl. lra. }
  assert (Hb' : forall i j, (i < 3)%nat -> (j < 3)%nat -> b_Mat s' i j = delta i j).
  { intros i j Hi Hj. unfold s', kinematics. fold t.
    rewrite left_Cauchy_Green_cell by assumption.
    unfold determinant_F. cbn [b_Mat F_Mat set_J_F].
    rewrite Hb, !HF by lia.
    below 3%nat i; below 3%nat j; unfold delta; simpl; lra. }
  repeat split; auto.
  intros i j Hi Hj. rewrite Compute_Stress_Tensor_cell by assumption.
  unfold Mu_J, Lambda_J. rewrite HJ, !guard_nonzero by lra.
  rewrite Hb' by assumption. rewrite ln_1. lra.
Qed.

(** In two dimensions [b_Mat[2][2]] is not zeroed either: each Gauss point
    adds the squares of the third row of [F_Mat] to what is already there. *)
Lemma init_F_b_2D_b (s : CFEM_NonlinearElasticity) (i j : nat) :
  nDim s = 2%nat -> (2 <= i \/ 2 <= j)%nat ->
  b_Mat (init_F_b s) i j = b_Mat s i j.
Proof.
  intros HD Hij. destruct s; simpl in *; subst.
  destruct i as [|[|i]]; destruct j as [|[|j]];
    try (exfalso; lia); reflexivity.
Qed.

Lemma kinematics_2D_b_accumulates (e : CElement) (g : nat)
  (s : CFEM_NonlinearElasticity) :
  nDim s = 2%nat ->
  b_Mat (kinematics e g s) 2%nat 2%nat =
  b_Mat s 2%nat 2%nat
  + F_Mat s 2%nat 0%nat * F_Mat s 2%nat 0%nat
  + F_Mat s 2%nat 1%nat * F_Mat s 2%nat 1%nat
  + F_Mat s 2%nat 2%nat * F_Mat s 2%nat 2%nat.
Proof.
  intros HD.
  assert (HF : forall j, F_Mat (kinematics e g s) 2%nat j = F_Mat s 2%nat j).
  { intros j. apply kinematics_2D_closure_missing; [assumption | lia]. }
  unfold kinematics in *. rewrite left_Cauchy_Green_F_Mat in HF.
  rewrite left_Cauchy_Green_cell by lia.
  unfold determinant_F in *. cbn [b_Mat F_Mat set_J_F] in *.
  rewrite !HF. f_equal. f_equal. f_equal.
  transitivity (b_Mat (init_F_b s) 2%nat 2%nat).
  - apply (for_loop_preserves
             (fun t => b_Mat t 2%nat 2%nat = b_Mat (init_F_b s) 2%nat 2%nat));
      [reflexivity|].
    intros n t Ht. now rewrite deformation_gradient_node_b_Mat.
  - apply init_F_b_2D_b; [assumption | lia].
Qed.

(** ** Compute_Tangent_Matrix: the geometric scalar *)

Lemma for_loop_preserves_in_range {St : Type} (Q : St -> Prop) (lo hi : nat)
  (body : nat -> St -> St) (s : St) :
  Q s ->
  (forall k t, (lo <= k < hi)%nat -> Q t -> Q (body k t)) ->
  Q (for_loop lo hi body s).
Proof.
  intros H0 Hstep. destruct (le_lt_dec lo hi) as [Hle|Hlt].
  - apply (for_loop_ind (fun _ t => Q t)); auto.
  - rewrite for_loop_empty by lia. exact H0.
Qed.

Lemma Add_Ks_ab_miss (val : R) (a b a' b' : nat) (e : CElement) :
  a' <> a \/ b' <> b -> Ks_ab (Add_Ks_ab val a b e) a' b' = Ks_ab e a' b'.
Proof.
  intros H. simpl. unfold same_pair.
  destruct (Nat.eqb_spec a' a); destruct (Nat.eqb_spec b' b); simpl;
    try reflexivity.
  destruct H; contradiction.
Qed.

Lemma Add_Kab_Ks_ab (val : Mat) (a b : nat) (e : CElement) :
  Ks_ab (Add_Kab val a b e) = Ks_ab e /\ Ks_ab (Add_Kab_T val a b e) = Ks_ab e.
Proof. split; reflexivity. Qed.

(** Both stores of the geometric scalar go to the pair (iNode, jNode) with
    [iNode <= jNode]: below the diagonal the geometric stiffness stays at
    the zero that [clearElement] put there. *)
Lemma geometric_scalar_never_mirrored (log : R -> R) (junk : Uninit)
  (s : CFEM_NonlinearElasticity) (e : CElement) (a b : nat) :
  (b < a)%nat -> Ks_ab (snd (Compute_Tangent_Matrix log junk s e)) a b = 0.
Proof.
  intros Hab. unfold Compute_Tangent_Matrix. cbn [snd].
  apply (for_loop_preserves (fun fr => Ks_ab (element fr) a b = 0));
    [reflexivity|].
  intros g fr Hfr. unfold Gauss_point.
  apply (for_loop_preserves (fun fr => Ks_ab (element fr) a b = 0));
    [exact Hfr|].
  intros iNode fr1 Hfr1. unfold stiffness_node.
  apply (for_loop_preserves_in_range (fun fr => Ks_ab (element fr) a b = 0));
    [exact Hfr1|].
  intros jNode fr2 Hj Hfr2. unfold pair_block. cbn [element].
  destruct (Nat.eqb iNode jNode); cbn [negb].
  - rewrite Add_Ks_ab_miss by lia.
    now rewrite (proj1 (Add_Kab_Ks_ab _ _ _ _)).
  - rewrite !Add_Ks_ab_miss by lia.
    rewrite (proj2 (Add_Kab_Ks_ab _ _ _ _)), Add_Ks_ab_miss by lia.
    now rewrite (proj1 (Add_Kab_Ks_ab _ _ _ _)).
Qed.

(** ** Compute_Tangent_Matrix on the concrete elements *)

(** C1. The claim says the stress is refreshed for the current deformation
    state before the geometric stiffness is formed.  On the reference
    tetrahedron with identity deformation the stress of the current state
    is zero, yet [Compute_Tangent_Matrix] never calls
    [Compute_Stress_Tensor]: [Stress_Tensor] still holds what it held on
    entry (the identity here) and the geometric stiffness of the pair (0,0)
    is formed from it, 1/2 instead of 0. *)
Theorem geometric_stiffness_from_stale_stress :
  let r := Compute_Tangent_Matrix ln junk1 stressed_3D tetrahedron in
  (forall i j, (i < 3)%nat -> (j < 3)%nat ->
     Stress_Tensor (Compute_Stress_Tensor ln junk1 (fst r)) i j = 0) /\
  Stress_Tensor (fst r) = Stress_Tensor stressed_3D /\
  Ks_ab (snd r) 0 0 = 1 / 2.
Proof.
  intros r.
  assert (HJ : J_F (fst r) = 1) by (unfold r; run; lra).
  assert (Hb : forall i j, (i < 3)%nat -> (j < 3)%nat ->
                 b_Mat (fst r) i j = delta i j).
  { intros i j Hi Hj. unfold r. below 3%nat i; below 3%nat j; run; lra. }
  assert (HS : Stress_Tensor (fst r) = Stress_Tensor stressed_3D)
    by apply Compute_Tangent_Matrix_Stress_Tensor.
  assert (HK : Ks_ab (snd r) 0 0 = 1 / 2) by (unfold r; run; lra).
  clearbody r. split; [|split; assumption].
  intros i j Hi Hj. rewrite Compute_Stress_Tensor_cell by assumption.
  unfold Mu_J, Lambda_J. rewrite HJ, !guard_nonzero by lra.
  rewrite Hb by assumption. rewrite ln_1. lra.
Qed.

(** C2. The claim says the assembled element stiffness equals its
    transpose.  On the reference triangle with a symmetric stress (the
    identity) the material blocks mirror each other, but the geometric
    scalar of the pair (0,1) is added twice into (0,1) and never into
    (1,0): the assembled matrix is not symmetric. *)
Theorem element_stiffness_not_symmetric :
  let e' := snd (Compute_Tangent_Matrix ln junk1 stressed_2D triangle) in
  Ks_ab e' 0 1 = -1 /\
  Ks_ab e' 1 0 = 0 /\
  Kab e' 1 0 0%nat 0%nat = Kab e' 0 1 0%nat 0%nat /\
  K_element e' 0 0 1 0 <> K_element e' 1 0 0 0.
Proof.
  intros e'.
  assert (H01 : Ks_ab e' 0 1 = -1) by (unfold e'; run; lra).
  assert (H10 : Ks_ab e' 1 0 = 0) by (unfold e'; run; lra).
  assert (HK : Kab e' 1 0 0%nat 0%nat = Kab e' 0 1 0%nat 0%nat)
    by (unfold e'; run; reflexivity).
  clearbody e'. split; [exact H01|]. split; [exact H10|]. split; [exact HK|].
  unfold K_element. rewrite H01, H10, HK.
  generalize (Kab e' 0 1 0%nat 0%nat). intros x.
  unfold delta. cbn [Nat.eqb]. lra.
Qed.

(** The same slip on a 3D input, where every store stays inside its
    buffer: on the reference tetrahedron with the identity as stress the
    geometric scalar of the pair (0,1) is added twice into (0,1), -1/3, and
    never into (1,0). *)
Lemma geometric_stiffness_not_mirrored_3D :
  let r := Compute_Tangent_Matrix ln junk1 stressed_3D tetrahedron in
  F_fault (fst r) = [] /\
  Ks_ab (snd r) 0 1 = - (1 / 3) /\
  Ks_ab (snd r) 1 0 = 0.
Proof.
  intros r. unfold r. split; [|split].
  - run. reflexivity.
  - run. lra.
  - run. lra.
Qed.

(** C4. The claim says that in 2D the out-of-plane diagonal entry of [F] is
    fixed to 1, so that the cofactor expansion gives the in-plane
    determinant.  On the reference triangle with identity deformation and
    zeroed buffers, [F_Mat[2][2]] is still 0 after the routine and [J_F]
    is 0, while the in-plane determinant is 1. *)
Theorem plane_strain_closure_not_applied :
  let s' := fst (Compute_Tangent_Matrix ln junk1 fresh_2D triangle) in
  F_Mat s' 2%nat 2%nat = 0 /\
  F_Mat s' 0%nat 0%nat * F_Mat s' 1%nat 1%nat
    - F_Mat s' 0%nat 1%nat * F_Mat s' 1%nat 0%nat = 1 /\
  J_F s' = 0.
Proof.
  intros s'. unfold s'. split; [|split]; run; lra.
Qed.

(** C6. The claim says no entry of [F] or [b] carries over from a previous
    Gauss point or call.  In 2D, a value left in [F_Mat[0][2]] (7) is still
    there after the routine and enters [b_Mat[0][0]] (50 instead of 1); a
    value left in [b_Mat[2][2]] (5) is added to (6); and with two Gauss
    points [b_Mat[2][2]] accumulates from one point to the next (2). *)
Theorem F_and_b_carry_over_in_2D :
  let s1 := fst (Compute_Tangent_Matrix ln junk1 stale_2D triangle) in
  let s2 := fst (Compute_Tangent_Matrix ln junk1 stressed_2D triangle_2gp) in
  F_Mat s1 0%nat 2%nat = 7 /\
  b_Mat s1 0%nat 0%nat = 50 /\
  b_Mat s1 2%nat 2%nat = 6 /\
  b_Mat s2 2%nat 2%nat = 2.
Proof.
  intros s1 s2. unfold s1, s2. repeat split; run; lra.
Qed.

(** C9. The claim says identity deformation gives [F = I], [J_F = 1],
    [b = I].  The reference triangle satisfies the hypothesis, yet from
    zeroed buffers the routine leaves [F_Mat[2][2] = 0], [J_F = 0] and
    [b_Mat[2][2] = 0]. *)
Theorem identity_deformation_fails_in_2D :
  (forall i j, (i < 2)%nat -> (j < 2)%nat ->
     sum_upto (GetnNodes triangle)
       (fun n => GetCurr_Coord triangle n i * GetGradNi_X triangle n 0 j)
     = delta i j) /\
  let s' := fst (Compute_Tangent_Matrix ln junk1 fresh_2D triangle) in
  F_Mat s' 2%nat 2%nat <> 1 /\ J_F s' <> 1 /\ b_Mat s' 2%nat 2%nat <> 1.
Proof.
  split.
  - intros i j Hi Hj. below 2%nat i; below 2%nat j; run; lra.
  - intros s'. unfold s'. repeat split; run; lra.
Qed.

(** C10. The claim says every access to [F_Mat] stays inside the 3x3
    buffer.  On the reference triangle the routine stores to
    [F_Mat[3][3]], once per node. *)
Theorem plane_strain_store_out_of_bounds :
  F_fault fresh_2D = [] /\
  F_fault (fst (Compute_Tangent_Matrix ln junk1 fresh_2D triangle))
  = [(3, 3); (3, 3); (3, 3)]%nat.
Proof.
  split; [reflexivity|]. run. reflexivity.
Qed.

(** * Further properties of the routines *)

(** ** The Neo-Hookean law *)

Lemma fill_D_outside (mu_p lambda_p : R) (D : Mat) (i j : nat) :
  (6 <= i \/ 6 <= j)%nat -> fill_D mu_p lambda_p D i j = D i j.
Proof.
  intros H.
  destruct i as [|[|[|[|[|[|i]]]]]]; destruct j as [|[|[|[|[|[|j]]]]]];
    try (exfalso; lia); reflexivity.
Qed.

Lemma fill_D_inside (mu_p lambda_p : R) (D D' : Mat) (i j : nat) :
  (i < 6)%nat -> (j < 6)%nat ->
  fill_D mu_p lambda_p D i j = fill_D mu_p lambda_p D' i j.
Proof.
  intros Hi Hj. below 6%nat i; below 6%nat j; reflexivity.
Qed.

(** X1. Whatever [J_F] is, zero included, the 6x6 block that
    [Compute_Constitutive_Matrix] leaves in [D_Mat] is symmetric. *)
Theorem Compute_Constitutive_Matrix_symmetric (log : R -> R) (junk : Uninit)
  (s : CFEM_NonlinearElasticity) (i j : nat) :
  (i < 6)%nat -> (j < 6)%nat ->
  D_Mat (Compute_Constitutive_Matrix log junk s) i j =
  D_Mat (Compute_Constitutive_Matrix log junk s) j i.
Proof.
  intros Hi Hj. unfold Compute_Constitutive_Matrix. cbn [D_Mat set_D_Mat].
  generalize (Mu_p log junk s) (Lambda_p junk s) (D_Mat s). intros m l D.
  below 6%nat i; below 6%nat j; reflexivity.
Qed.

Lemma Compute_Constitutive_Matrix_symmetric_witness :
  (0 < 6)%nat /\ (4 < 6)%nat /\
  D_Mat (Compute_Constitutive_Matrix ln junk1 singular_3D) 0%nat 4%nat =
  D_Mat (Compute_Constitutive_Matrix ln junk1 singular_3D) 4%nat 0%nat.
Proof.
  split; [lia|]. split; [lia|].
  apply (Compute_Constitutive_Matrix_symmetric ln junk1 singular_3D 0 4); lia.
Defined.

(** X2. [Compute_Constitutive_Matrix] recomputes the block from scratch:
    two objects with the same [Mu], [Lambda] and [J_F] get the same 36
    entries whatever their [D_Mat] held before, and every entry outside the
    6x6 block keeps its value. *)
Theorem Compute_Constitutive_Matrix_fresh (log : R -> R) (junk : Uninit)
  (s1 s2 : CFEM_NonlinearElasticity) :
  Mu s1 = Mu s2 -> Lambda s1 = Lambda s2 -> J_F s1 = J_F s2 ->
  (forall i j, (i < 6)%nat -> (j < 6)%nat ->
     D_Mat (Compute_Constitutive_Matrix log junk s1) i j =
     D_Mat (Compute_Constitutive_Matrix log junk s2) i j) /\
  (forall i j, (6 <= i \/ 6 <= j)%nat ->
     D_Mat (Compute_Constitutive_Matrix log junk s1) i j = D_Mat s1 i j).
Proof.
  intros HM HL HJ. unfold Compute_Constitutive_Matrix, Mu_p, Lambda_p.
  cbn [D_Mat set_D_Mat]. rewrite HM, HL, HJ. split.
  - intros i j Hi Hj. now apply fill_D_inside.
  - intros i j Hij. now apply fill_D_outside.
Qed.

Lemma Compute_Constitutive_Matrix_fresh_witness :
  Mu stretched_3D = Mu (set_D_Mat Mat_identity stretched_3D) /\
  Lambda stretched_3D = Lambda (set_D_Mat Mat_identity stretched_3D) /\
  J_F stretched_3D = J_F (set_D_Mat Mat_identity stretched_3D) /\
  (forall i j, (i < 6)%nat -> (j < 6)%nat ->
     D_Mat (Compute_Constitutive_Matrix ln junk1 stretched_3D) i j =
     D_Mat (Compute_Constitutive_Matrix ln junk1
              (set_D_Mat Mat_identity stretched_3D)) i j).
Proof.
  split; [reflexivity|]. split; [reflexivity|]. split; [reflexivity|].
  apply (Compute_Constitutive_Matrix_fresh ln junk1 stretched_3D
           (set_D_Mat Mat_identity stretched_3D)); reflexivity.
Defined.

Lemma Compute_Stress_Tensor_outside (log : R -> R) (junk : Uninit)
  (s : CFEM_NonlinearElasticity) (i j : nat) :
  (3 <= i \/ 3 <= j)%nat ->
  Stress_Tensor (Compute_Stress_Tensor log junk s) i j = Stress_Tensor s i j.
Proof.
  intros H.
  destruct i as [|[|[|i]]]; destruct j as [|[|[|j]]];
    try (exfalso; lia); reflexivity.
Qed.

(** X3. With [0 < J_F], [Compute_Stress_Tensor] fills the 3x3 tensor with
    [Mu/J_F * (b[i][j] - delta_ij) + Lambda/J_F * log(J_F) * delta_ij],
    whatever the tensor held before, and writes nowhere else in the
    buffer. *)
Theorem Compute_Stress_Tensor_formula (log : R -> R) (junk : Uninit)
  (s : CFEM_NonlinearElasticity) :
  0 < J_F s ->
  (forall i j, (i < 3)%nat -> (j < 3)%nat ->
     Stress_Tensor (Compute_Stress_Tensor log junk s) i j =
     Mu s / J_F s * (b_Mat s i j - delta i j)
     + Lambda s / J_F s * log (J_F s) * delta i j) /\
  (forall i j, (3 <= i \/ 3 <= j)%nat ->
     Stress_Tensor (Compute_Stress_Tensor log junk s) i j = Stress_Tensor s i j).
Proof.
  intros HJ. split.
  - intros i j Hi Hj. rewrite Compute_Stress_Tensor_cell by assumption.
    unfold Mu_J, Lambda_J. now rewrite !guard_nonzero by lra.
  - intros i j Hij. now apply Compute_Stress_Tensor_outside.
Qed.

Lemma Compute_Stress_Tensor_formula_witness :
  0 < J_F stretched_3D /\
  Stress_Tensor (Compute_Stress_Tensor ln junk1 stretched_3D) 1%nat 1%nat =
  Mu stretched_3D / J_F stretched_3D
    * (b_Mat stretched_3D 1%nat 1%nat - delta 1 1)
  + Lambda stretched_3D / J_F stretched_3D * ln (J_F stretched_3D) * delta 1 1.
Proof.
  assert (H : 0 < J_F stretched_3D) by (simpl; lra).
  split; [exact H|].
  apply (proj1 (Compute_Stress_Tensor_formula ln junk1 stretched_3D H)); lia.
Defined.

(** X4. The Stress Tensor is as symmetric as [b_Mat]: with [0 < J_F], if
    [b_Mat] is symmetric on its 3x3 block, so is the tensor that
    [Compute_Stress_Tensor] produces. *)
Theorem Compute_Stress_Tensor_symmetric (log : R -> R) (junk : Uninit)
  (s : CFEM_NonlinearElasticity) :
  0 < J_F s ->
  (forall i j, (i < 3)%nat -> (j < 3)%nat -> b_Mat s i j = b_Mat s j i) ->
  forall i j, (i < 3)%nat -> (j < 3)%nat ->
    Stress_Tensor (Compute_Stress_Tensor log junk s) i j =
    Stress_Tensor (Compute_Stress_Tensor log junk s) j i.
Proof.
  intros _ Hb i j Hi Hj. rewrite !Compute_Stress_Tensor_cell by assumption.
  rewrite (Hb i j Hi Hj). unfold delta. rewrite (Nat.eqb_sym j i). reflexivity.
Qed.

Lemma Compute_Stress_Tensor_symmetric_witness :
  0 < J_F stretched_3D /\
  (forall i j, (i < 3)%nat -> (j < 3)%nat ->
     b_Mat stretched_3D i j = b_Mat stretched_3D j i) /\
  Stress_Tensor (Compute_Stress_Tensor ln junk1 stretched_3D) 0%nat 2%nat =
  Stress_Tensor (Compute_Stress_Tensor ln junk1 stretched_3D) 2%nat 0%nat.
Proof.
  assert (HJ : 0 < J_F stretched_3D) by (simpl; lra).
  assert (H : forall i j, (i < 3)%nat -> (j < 3)%nat ->
                b_Mat stretched_3D i j = b_Mat stretched_3D j i).
  { intros i j _ _. simpl. unfold Mat_identity, delta.
    now rewrite (Nat.eqb_sym j i). }
  split; [exact HJ|]. split; [exact H|].
  apply (Compute_Stress_Tensor_symmetric ln junk1 stretched_3D HJ H); lia.
Defined.

(** ** Compute_MeanDilatation_Term *)

Lemma md_divide_cell (n : nat) (vol : R) (s : CFEM_NonlinearElasticity)
  (a i : nat) :
  (a < n)%nat -> (i < nDim s)%nat ->
  GradNi_Mat (md_divide n vol s) a i = GradNi_Mat s a i / vol.
Proof.
  intros Ha Hi.
  apply (fill_block_cell _ GradNi_Mat set_GradNi_Mat nDim
           (fun _ _ x _ => x / vol)); auto.
Qed.

Lemma md_guard_true (v : Volumes) :
  Vol_current v <> 0 -> Vol_reference v <> 0 -> md_guard v = true.
Proof.
  intros Hc Hr. unfold md_guard. now rewrite !guard_nonzero.
Qed.

(** Every entry that the routine stores, on the element's data: the
    coefficient and the averaged gradients are those of the branch taken
    on line 352. *)
Lemma Compute_MeanDilatation_Term_entry (junk : Uninit)
  (s : CFEM_NonlinearElasticity) (e : CElement) (a b i j : nat) :
  (a < GetnNodes e)%nat -> (b < GetnNodes e)%nat ->
  (i < nDim s)%nat -> (j < nDim s)%nat ->
  Kk_ab (snd (Compute_MeanDilatation_Term junk s e)) a b i j =
  if md_guard (md_accumulate s e)
  then Kappa s * md_Vol_current e / md_Vol_reference e * md_Vol_current e
       * (md_gradient_sum e a i / md_Vol_current e)
       * (md_gradient_sum e b j / md_Vol_current e)
  else Avg_kappa_0 junk * md_Vol_current e
       * md_gradient_sum e a i * md_gradient_sum e b j.
Proof.
  intros Ha Hb Hi Hj.
  destruct (md_accumulate_spec s e) as (HD & HK & Hc & Hr & HG).
  unfold Compute_MeanDilatation_Term, md_normalise.
  destruct (md_guard (md_accumulate s e)); cbn [fst snd].
  - rewrite (proj2 (proj2 (md_write_spec _ _ _ _ _)))
      by (rewrite ?md_divide_frame by auto; rewrite ?HD; assumption).
    rewrite !md_divide_cell by (rewrite ?HD; assumption).
    rewrite !HG by assumption. rewrite HK, Hc, Hr. reflexivity.
  - rewrite (proj2 (proj2 (md_write_spec _ _ _ _ _)))
      by (rewrite ?HD; assumption).
    rewrite !HG by assumption. rewrite Hc. reflexivity.
Qed.

Lemma md_guard_regular (s : CFEM_NonlinearElasticity) (e : CElement) :
  md_Vol_current e <> 0 -> md_Vol_reference e <> 0 ->
  md_guard (md_accumulate s e) = true.
Proof.
  intros Hc Hr. apply md_guard_true.
  - now rewrite (proj1 (proj2 (proj2 (md_accumulate_spec s e)))).
  - now rewrite (proj1 (proj2 (proj2 (proj2 (md_accumulate_spec s e))))).
Qed.

(** X5. When both accumulated volumes are nonzero, the block stored for the
    pair (a,b) is, entry by entry,
    [Kappa * Vc/Vr * Vc * (S a i / Vc) * (S b j / Vc)], where [Vc] and [Vr]
    are the current and reference volumes summed over the pressure rule and
    [S a i] is the volume-weighted sum of the current gradients. *)
Theorem Compute_MeanDilatation_Term_closed_form (junk : Uninit)
  (s : CFEM_NonlinearElasticity) (e : CElement) (a b i j : nat) :
  md_Vol_current e <> 0 -> md_Vol_reference e <> 0 ->
  (a < GetnNodes e)%nat -> (b < GetnNodes e)%nat ->
  (i < nDim s)%nat -> (j < nDim s)%nat ->
  Kk_ab (snd (Compute_MeanDilatation_Term junk s e)) a b i j =
  Kappa s * md_Vol_current e / md_Vol_reference e * md_Vol_current e
  * (md_gradient_sum e a i / md_Vol_current e)
  * (md_gradient_sum e b j / md_Vol_current e).
Proof.
  intros Hc Hr Ha Hb Hi Hj.
  rewrite Compute_MeanDilatation_Term_entry by assumption.
  now rewrite md_guard_regular.
Qed.

Lemma triangle_volumes :
  md_Vol_current triangle = 1 / 2 /\ md_Vol_reference triangle = 1 / 2.
Proof. unfold md_Vol_current, md_Vol_reference. simpl. split; lra. Qed.

Lemma Compute_MeanDilatation_Term_closed_form_witness :
  md_Vol_current triangle <> 0 /\ md_Vol_reference triangle <> 0 /\
  (0 < GetnNodes triangle)%nat /\ (1 < GetnNodes triangle)%nat /\
  (0 < nDim stale_2D)%nat /\ (1 < nDim stale_2D)%nat /\
  Kk_ab (snd (Compute_MeanDilatation_Term junk1 stale_2D triangle)) 0 1
    0%nat 1%nat =
  Kappa stale_2D * md_Vol_current triangle / md_Vol_reference triangle
  * md_Vol_current triangle
  * (md_gradient_sum triangle 0 0 / md_Vol_current triangle)
  * (md_gradient_sum triangle 1 1 / md_Vol_current triangle).
Proof.
  assert (Hc : md_Vol_current triangle <> 0)
    by (rewrite (proj1 triangle_volumes); lra).
  assert (Hr : md_Vol_reference triangle <> 0)
    by (rewrite (proj2 triangle_volumes); lra).
  split; [exact Hc|]. split; [exact Hr|].
  split; [simpl; lia|]. split; [simpl; lia|].
  split; [simpl; lia|]. split; [simpl; lia|].
  apply (Compute_MeanDilatation_Term_closed_form junk1 stale_2D triangle
           0 1 0 1 Hc Hr); simpl; lia.
Defined.

(** X6. The pressure stiffness is symmetric: entry (i,j) of the block of
    (a,b) equals entry (j,i) of the block of (b,a), in the degenerate
    branch as well. *)
Theorem Compute_MeanDilatation_Term_symmetric (junk : Uninit)
  (s : CFEM_NonlinearElasticity) (e : CElement) (a b i j : nat) :
  (a < GetnNodes e)%nat -> (b < GetnNodes e)%nat ->
  (i < nDim s)%nat -> (j < nDim s)%nat ->
  Kk_ab (snd (Compute_MeanDilatation_Term junk s e)) a b i j =
  Kk_ab (snd (Compute_MeanDilatation_Term junk s e)) b a j i.
Proof.
  intros Ha Hb Hi Hj.
  rewrite !Compute_MeanDilatation_Term_entry by assumption.
  destruct (md_guard (md_accumulate s e)); ring.
Qed.

Lemma Compute_MeanDilatation_Term_symmetric_witness :
  (0 < GetnNodes triangle)%nat /\ (2 < GetnNodes triangle)%nat /\
  (0 < nDim stale_2D)%nat /\ (1 < nDim stale_2D)%nat /\
  Kk_ab (snd (Compute_MeanDilatation_Term junk1 stale_2D triangle)) 0 2
    0%nat 1%nat =
  Kk_ab (snd (Compute_MeanDilatation_Term junk1 stale_2D triangle)) 2 0
    1%nat 0%nat.
Proof.
  split; [simpl; lia|]. split; [simpl; lia|].
  split; [simpl; lia|]. split; [simpl; lia|].
  apply (Compute_MeanDilatation_Term_symmetric junk1 stale_2D triangle 0 2 0 1);
    simpl; lia.
Defined.

Lemma md_guard_on_data (s : CFEM_NonlinearElasticity) (e : CElement) :
  md_guard (md_accumulate s e) =
  md_guard (mkVolumes s (md_Vol_current e) (md_Vol_reference e)).
Proof.
  unfold md_guard. cbn [Vol_current Vol_reference].
  rewrite (proj1 (proj2 (proj2 (md_accumulate_spec s e)))).
  now rewrite (proj1 (proj2 (proj2 (proj2 (md_accumulate_spec s e))))).
Qed.

(** X7. Nothing left in the scratch buffers enters the result: two objects
    of the same dimension and bulk modulus store the same blocks for the
    same element, whatever [GradNi_Mat] and [KAux_P_ab] held before, the
    never-assigned [Avg_kappa] holding the same value in both runs. *)
Theorem Compute_MeanDilatation_Term_no_carry_over (junk : Uninit)
  (s1 s2 : CFEM_NonlinearElasticity) (e : CElement) (a b i j : nat) :
  nDim s1 = nDim s2 -> Kappa s1 = Kappa s2 ->
  (a < GetnNodes e)%nat -> (b < GetnNodes e)%nat ->
  (i < nDim s1)%nat -> (j < nDim s1)%nat ->
  Kk_ab (snd (Compute_MeanDilatation_Term junk s1 e)) a b i j =
  Kk_ab (snd (Compute_MeanDilatation_Term junk s2 e)) a b i j.
Proof.
  intros HD HK Ha Hb Hi Hj.
  rewrite !Compute_MeanDilatation_Term_entry by (rewrite <- ?HD; assumption).
  rewrite (md_guard_on_data s1), (md_guard_on_data s2), HK. reflexivity.
Qed.

Lemma Compute_MeanDilatation_Term_no_carry_over_witness :
  nDim stale_2D = nDim fresh_2D /\ Kappa stale_2D = Kappa fresh_2D /\
  (0 < GetnNodes triangle)%nat /\ (1 < GetnNodes triangle)%nat /\
  (0 < nDim stale_2D)%nat /\ (0 < nDim stale_2D)%nat /\
  Kk_ab (snd (Compute_MeanDilatation_Term junk1 stale_2D triangle)) 0 1
    0%nat 0%nat =
  Kk_ab (snd (Compute_MeanDilatation_Term junk1 fresh_2D triangle)) 0 1
    0%nat 0%nat.
Proof.
  split; [reflexivity|]. split; [reflexivity|].
  split; [simpl; lia|]. split; [simpl; lia|].
  split; [simpl; lia|]. split; [simpl; lia|].
  apply (Compute_MeanDilatation_Term_no_carry_over junk1 stale_2D fresh_2D
           triangle 0 1 0 0); solve [reflexivity | simpl; lia].
Defined.

(** X8. For fixed element data the pressure stiffness is linear in the bulk
    modulus: multiplying [Kappa] by [c] multiplies every stored entry by
    [c], when both volumes are nonzero. *)
Theorem Compute_MeanDilatation_Term_linear_in_Kappa (junk : Uninit)
  (s1 s2 : CFEM_NonlinearElasticity) (e : CElement) (c : R) (a b i j : nat) :
  nDim s1 = nDim s2 -> Kappa s2 = c * Kappa s1 ->
  md_Vol_current e <> 0 -> md_Vol_reference e <> 0 ->
  (a < GetnNodes e)%nat -> (b < GetnNodes e)%nat ->
  (i < nDim s1)%nat -> (j < nDim s1)%nat ->
  Kk_ab (snd (Compute_MeanDilatation_Term junk s2 e)) a b i j =
  c * Kk_ab (snd (Compute_MeanDilatation_Term junk s1 e)) a b i j.
Proof.
  intros HD HK Hc Hr Ha Hb Hi Hj.
  rewrite !Compute_MeanDilatation_Term_entry by (rewrite <- ?HD; assumption).
  rewrite !md_guard_regular by assumption.
  rewrite HK. unfold Rdiv. ring.
Qed.

Lemma Compute_MeanDilatation_Term_linear_in_Kappa_witness :
  nDim (bulk_2D 1) = nDim (bulk_2D 3) /\
  Kappa (bulk_2D 3) = 3 * Kappa (bulk_2D 1) /\
  md_Vol_current triangle <> 0 /\ md_Vol_reference triangle <> 0 /\
  (0 < GetnNodes triangle)%nat /\ (1 < GetnNodes triangle)%nat /\
  (0 < nDim (bulk_2D 1))%nat /\ (1 < nDim (bulk_2D 1))%nat /\
  Kk_ab (snd (Compute_MeanDilatation_Term junk1 (bulk_2D 3) triangle)) 0 1
    0%nat 1%nat =
  3 * Kk_ab (snd (Compute_MeanDilatation_Term junk1 (bulk_2D 1) triangle)) 0 1
        0%nat 1%nat.
Proof.
  assert (HK : Kappa (bulk_2D 3) = 3 * Kappa (bulk_2D 1)) by (simpl; lra).
  assert (Hc : md_Vol_current triangle <> 0)
    by (rewrite (proj1 triangle_volumes); lra).
  assert (Hr : md_Vol_reference triangle <> 0)
    by (rewrite (proj2 triangle_volumes); lra).
  split; [reflexivity|]. split; [exact HK|].
  split; [exact Hc|]. split; [exact Hr|].
  split; [simpl; lia|]. split; [simpl; lia|].
  split; [simpl; lia|]. split; [simpl; lia|].
  apply (Compute_MeanDilatation_Term_linear_in_Kappa junk1 (bulk_2D 1)
           (bulk_2D 3) triangle 3 0 1 0 1 eq_refl HK Hc Hr); simpl; lia.
Defined.

Lemma fill_block_outside {St : Type} (get : St -> Mat) (set : Mat -> St -> St)
  (bound : St -> nat) (val : nat -> nat -> R -> St -> R) (n : nat) (s : St)
  (i j : nat) :
  (forall M t, get (set M t) = M) ->
  (forall M t, bound (set M t) = bound t) ->
  (forall a b x M t, val a b x (set M t) = val a b x t) ->
  (n <= i \/ bound s <= j)%nat ->
  get (fill_block get set bound val n s) i j = get s i j.
Proof.
  intros H1 H2 H3 Hij.
  rewrite (proj2 (fill_block_spec St get set bound val H1 H2 H3 n s)).
  destruct (Nat.ltb_spec i n); destruct (Nat.ltb_spec j (bound s));
    simpl; try reflexivity.
  exfalso; lia.
Qed.

(** X9. [Compute_MeanDilatation_Term] stores only into [GradNi_Mat] (rows
    below the node count, columns below [nDim]), [KAux_P_ab] and the
    element's pressure blocks: the tensors and constants of the object and
    the material and geometric stiffness of the element come out as they
    went in. *)
Theorem Compute_MeanDilatation_Term_frame (junk : Uninit)
  (s : CFEM_NonlinearElasticity) (e : CElement) :
  let r := Compute_MeanDilatation_Term junk s e in
  (nDim (fst r) = nDim s /\ Mu (fst r) = Mu s /\ Lambda (fst r) = Lambda s /\
   Kappa (fst r) = Kappa s) /\
  (F_Mat (fst r) = F_Mat s /\ b_Mat (fst r) = b_Mat s /\ J_F (fst r) = J_F s /\
   D_Mat (fst r) = D_Mat s /\ Stress_Tensor (fst r) = Stress_Tensor s) /\
  (Kab (snd r) = Kab e /\ Ks_ab (snd r) = Ks_ab e) /\
  (forall a i, (GetnNodes e <= a \/ nDim s <= i)%nat ->
     GradNi_Mat (fst r) a i = GradNi_Mat s a i).
Proof.
  intros r.
  assert (Hkeep : forall (A : Type) (p : CFEM_NonlinearElasticity -> A),
            (forall M t, p (set_GradNi_Mat M t) = p t) ->
            (forall M t, p (set_KAux_P_ab M t) = p t) ->
            p (fst r) = p s).
  { intros A p HG HP. unfold r, Compute_MeanDilatation_Term, md_write.
    set (v := md_accumulate s e).
    assert (Hv : p (md_this v) = p s).
    { unfold v, md_accumulate.
      apply (for_loop_preserves (fun v => p (md_this v) = p s)).
      - cbn [md_this]. now apply md_init_frame.
      - intros g t Ht. unfold md_Gauss_point. cbn [md_this].
        now rewrite md_average_frame. }
    assert (Hsk : p (fst (md_normalise junk (GetnNodes e) v)) = p s).
    { unfold md_normalise. destruct (md_guard v); cbn [fst]; [|exact Hv].
      now rewrite md_divide_frame. }
    apply (for_loop_preserves (fun se => p (fst se) = p s)); [exact Hsk|].
    intros a se Hse.
    apply (for_loop_preserves (fun se => p (fst se) = p s)); [exact Hse|].
    intros b se' Hse'. cbn [fst]. now rewrite pressure_block_frame. }
  split; [|split; [|split]].
  - repeat split; apply Hkeep; reflexivity.
  - repeat split; apply Hkeep; reflexivity.
  - unfold r, Compute_MeanDilatation_Term, md_write.
    apply (for_loop_preserves
             (fun se => Kab (snd se) = Kab e /\ Ks_ab (snd se) = Ks_ab e));
      [split; reflexivity|].
    intros a se Hse.
    apply (for_loop_preserves
             (fun se => Kab (snd se) = Kab e /\ Ks_ab (snd se) = Ks_ab e));
      [exact Hse|].
    intros b se' Hse'. exact Hse'.
  - intros a i Hai.
    unfold r, Compute_MeanDilatation_Term.
    rewrite (proj1 (md_write_spec _ _ _ _ _)).
    set (v := md_accumulate s e).
    assert (Hv : nDim (md_this v) = nDim s /\
                 GradNi_Mat (md_this v) a i = GradNi_Mat s a i).
    { unfold v, md_accumulate.
      apply (for_loop_preserves
               (fun v => nDim (md_this v) = nDim s /\
                         GradNi_Mat (md_this v) a i = GradNi_Mat s a i)).
      - cbn [md_this]. split; [now apply md_init_frame|].
        apply (fill_block_outside GradNi_Mat set_GradNi_Mat nDim
                 (fun _ _ _ _ => 0)); auto.
      - intros g t [Ht1 Ht2]. unfold md_Gauss_point. cbn [md_this]. split.
        + rewrite md_average_frame; auto.
        + rewrite <- Ht2.
          apply (fill_block_outside GradNi_Mat set_GradNi_Mat nDim
                   (fun a i x _ =>
                      x + GetWeight_P e g * GetGradNi_x_P e a g i
                          * GetJ_x_P e g)); auto.
          rewrite Ht1. exact Hai. }
    destruct Hv as [Hv1 Hv2].
    unfold md_normalise. destruct (md_guard v); cbn [fst]; [|exact Hv2].
    rewrite <- Hv2.
    apply (fill_block_outside GradNi_Mat set_GradNi_Mat nDim
             (fun _ _ x _ => x / Vol_current v)); auto.
    rewrite Hv1. exact Hai.
Qed.

(** ** Compute_Tangent_Matrix: closed forms for the kinematics *)

Lemma deformation_gradient_loop_3D (e : CElement) (g : nat)
  (s : CFEM_NonlinearElasticity) :
  nDim s = 3%nat ->
  let t := for_loop 0 (GetnNodes e) (deformation_gradient_node e g) (init_F_b s) in
  nDim t = 3%nat /\
  (forall i j, (i < 3)%nat -> (j < 3)%nat -> F_Mat t i j = F_sum e g i j) /\
  (forall i j, (i < 3)%nat -> (j < 3)%nat -> b_Mat t i j = 0).
Proof.
  intros HD t. unfold t, F_sum.
  apply (for_loop_ind (fun k u =>
    nDim u = 3%nat /\
    (forall i j, (i < 3)%nat -> (j < 3)%nat ->
       F_Mat u i j = sum_upto k
         (fun n => GetCurr_Coord e n i * GetGradNi_X e n g j)) /\
    (forall i j, (i < 3)%nat -> (j < 3)%nat -> b_Mat u i j = 0)));
    [lia| |].
  - split; [now rewrite init_F_b_nDim|].
    split; intros i j Hi Hj; now apply init_F_b_3D.
  - intros k u Hk (Hu & HF & Hb). split; [|split].
    + unfold deformation_gradient_node.
      rewrite plane_strain_nDim, accumulate_F_nDim.
      now rewrite (proj2 (retrieve_node_F_Mat e g k u)).
    + intros i j Hi Hj.
      rewrite deformation_gradient_node_3D by assumption.
      simpl. now rewrite HF.
    + intros i j Hi Hj. rewrite deformation_gradient_node_b_Mat.
      now apply Hb.
Qed.

Lemma kinematics_J_F (e : CElement) (g : nat) (s : CFEM_NonlinearElasticity) :
  J_F (kinematics e g s) = det3 (F_Mat (kinematics e g s)).
Proof.
  unfold kinematics. rewrite left_Cauchy_Green_F_Mat.
  set (t := for_loop _ _ _ _).
  transitivity (J_F (determinant_F t)).
  - apply (left_Cauchy_Green_keeps (fun u => J_F u = J_F (determinant_F t)));
      auto.
  - reflexivity.
Qed.

Lemma kinematics_3D_cells (e : CElement) (g : nat)
  (s : CFEM_NonlinearElasticity) :
  nDim s = 3%nat ->
  (forall i j, (i < 3)%nat -> (j < 3)%nat ->
     F_Mat (kinematics e g s) i j = F_sum e g i j) /\
  (forall i j, (i < 3)%nat -> (j < 3)%nat ->
     b_Mat (kinematics e g s) i j =
     F_sum e g i 0 * F_sum e g j 0 + F_sum e g i 1 * F_sum e g j 1
     + F_sum e g i 2 * F_sum e g j 2).
Proof.
  intros HD.
  destruct (deformation_gradient_loop_3D e g s HD) as (Hn & HF & Hb).
  unfold kinematics. split.
  - intros i j Hi Hj. rewrite left_Cauchy_Green_F_Mat. now apply HF.
  - intros i j Hi Hj. rewrite left_Cauchy_Green_cell by assumption.
    unfold determinant_F. cbn [b_Mat F_Mat set_J_F].
    rewrite Hb, !HF by lia. lra.
Qed.

(** X10. In three dimensions every Gauss point rebuilds the kinematics from
    the element alone: [F_Mat] is the sum over the nodes of
    [x[node][i] * dN/dX[j]], [J_F] its determinant by the cofactor
    expansion and [b_Mat] the product [F F^T]; nothing of what the three
    buffers held before remains. *)
Theorem kinematics_3D_closed_form (e : CElement) (g : nat)
  (s : CFEM_NonlinearElasticity) :
  nDim s = 3%nat ->
  let s' := kinematics e g s in
  (forall i j, (i < 3)%nat -> (j < 3)%nat -> F_Mat s' i j = F_sum e g i j) /\
  J_F s' = det3 (F_sum e g) /\
  (forall i j, (i < 3)%nat -> (j < 3)%nat ->
     b_Mat s' i j =
     F_sum e g i 0 * F_sum e g j 0 + F_sum e g i 1 * F_sum e g j 1
     + F_sum e g i 2 * F_sum e g j 2).
Proof.
  intros HD s'. destruct (kinematics_3D_cells e g s HD) as [HF Hb].
  split; [exact HF|]. split; [|exact Hb].
  unfold s'. rewrite kinematics_J_F. unfold det3. now rewrite !HF by lia.
Qed.

Lemma kinematics_3D_closed_form_witness :
  nDim stressed_3D = 3%nat /\
  J_F (kinematics tetrahedron 0 stressed_3D) = det3 (F_sum tetrahedron 0).
Proof.
  split; [reflexivity|].
  apply (kinematics_3D_closed_form tetrahedron 0 stressed_3D eq_refl).
Defined.

(** X11. In three dimensions the tensors of a Gauss point are consistent
    with each other: [b_Mat] is symmetric, its diagonal is nonnegative, and
    its determinant is the square of [J_F]. *)
Theorem kinematics_3D_consistent (e : CElement) (g : nat)
  (s : CFEM_NonlinearElasticity) :
  nDim s = 3%nat ->
  let s' := kinematics e g s in
  (forall i j, (i < 3)%nat -> (j < 3)%nat -> b_Mat s' i j = b_Mat s' j i) /\
  (forall i, (i < 3)%nat -> 0 <= b_Mat s' i i) /\
  det3 (b_Mat s') = J_F s' * J_F s'.
Proof.
  intros HD s'. destruct (kinematics_3D_cells e g s HD) as [HF Hb].
  fold s' in HF, Hb. split; [|split].
  - intros i j Hi Hj. rewrite !Hb by assumption. ring.
  - intros i Hi. rewrite Hb by assumption.
    generalize (F_sum e g i 0) (F_sum e g i 1) (F_sum e g i 2). intros x y z.
    nra.
  - unfold s' at 2 3. rewrite kinematics_J_F. fold s'.
    unfold det3. rewrite !Hb, !HF by lia. ring.
Qed.

Lemma kinematics_3D_consistent_witness :
  nDim stressed_3D = 3%nat /\
  det3 (b_Mat (kinematics tetrahedron 0 stressed_3D)) =
  J_F (kinematics tetrahedron 0 stressed_3D)
  * J_F (kinematics tetrahedron 0 stressed_3D).
Proof.
  split; [reflexivity|].
  apply (kinematics_3D_consistent tetrahedron 0 stressed_3D eq_refl).
Defined.

(** X12. A uniform dilatation in three dimensions, [F = c I] with
    [0 < c], gives [J_F = c^3] and [b = c^2 I], and the stress computed
    from that state is hydrostatic: no shear entry, and the same value
    [Mu/c^3 * (c^2 - 1) + Lambda/c^3 * log(c^3)] on the diagonal. *)
Theorem uniform_dilatation_3D (log : R -> R) (junk : Uninit) (e : CElement)
  (g : nat) (s : CFEM_NonlinearElasticity) (c : R) :
  nDim s = 3%nat -> 0 < c ->
  (forall i j, (i < 3)%nat -> (j < 3)%nat -> F_sum e g i j = c * delta i j) ->
  let s' := kinematics e g s in
  J_F s' = c * c * c /\
  (forall i j, (i < 3)%nat -> (j < 3)%nat -> b_Mat s' i j = c * c * delta i j) /\
  (forall i j, (i < 3)%nat -> (j < 3)%nat ->
     Stress_Tensor (Compute_Stress_Tensor log junk s') i j =
     (Mu s / (c * c * c) * (c * c - 1)
      + Lambda s / (c * c * c) * log (c * c * c)) * delta i j).
Proof.
  intros HD Hpos Hid s'.
  assert (Hc : c <> 0) by lra.
  destruct (kinematics_3D_cells e g s HD) as [HF Hb].
  assert (HJ : J_F s' = det3 (F_sum e g)).
  { unfold s'. rewrite kinematics_J_F. unfold det3. now rewrite !HF by lia. }
  fold s' in HF, Hb.
  assert (HJ' : J_F s' = c * c * c).
  { rewrite HJ. unfold det3. rewrite !Hid by lia. unfold delta. simpl. ring. }
  assert (Hb' : forall i j, (i < 3)%nat -> (j < 3)%nat ->
                  b_Mat s' i j = c * c * delta i j).
  { intros i j Hi Hj. rewrite Hb by assumption. rewrite !Hid by lia.
    below 3%nat i; below 3%nat j; unfold delta; simpl; ring. }
  assert (Hc3 : c * c * c <> 0).
  { intros H. apply Hc.
    destruct (Rmult_integral _ _ H) as [H1|H1]; [|exact H1].
    destruct (Rmult_integral _ _ H1); assumption. }
  assert (HMu : Mu s' = Mu s /\ Lambda s' = Lambda s).
  { unfold s'. split.
    - apply (kinematics_keeps (fun t => Mu t = Mu s));
        solve [reflexivity | frame_side].
    - apply (kinematics_keeps (fun t => Lambda t = Lambda s));
        solve [reflexivity | frame_side]. }
  split; [exact HJ'|]. split; [exact Hb'|].
  intros i j Hi Hj. rewrite Compute_Stress_Tensor_cell by assumption.
  unfold Mu_J, Lambda_J. rewrite !guard_nonzero by (rewrite HJ'; exact Hc3).
  rewrite Hb' by assumption. rewrite HJ', (proj1 HMu), (proj2 HMu).
  unfold delta. destruct (Nat.eqb i j); field; repeat split; assumption.
Qed.

Lemma tetrahedron_scaled_F (c : R) (i j : nat) :
  (i < 3)%nat -> (j < 3)%nat ->
  F_sum (tetrahedron_scaled c) 0 i j = c * delta i j.
Proof.
  intros Hi Hj. unfold F_sum.
  below 3%nat i; below 3%nat j; simpl; unfold delta; simpl; ring.
Qed.

Lemma uniform_dilatation_3D_witness :
  nDim stressed_3D = 3%nat /\ 0 < 2 /\
  (forall i j, (i < 3)%nat -> (j < 3)%nat ->
     F_sum (tetrahedron_scaled 2) 0 i j = 2 * delta i j) /\
  J_F (kinematics (tetrahedron_scaled 2) 0 stressed_3D) = 2 * 2 * 2.
Proof.
  assert (H2 : 0 < 2) by lra.
  split; [reflexivity|]. split; [exact H2|].
  split; [apply tetrahedron_scaled_F|].
  apply (uniform_dilatation_3D ln junk1 (tetrahedron_scaled 2) 0 stressed_3D 2
           eq_refl H2 (tetrahedron_scaled_F 2)).
Defined.

(** ** Compute_Tangent_Matrix: stores into F_Mat *)

(** A property kept by the stiffness stores and by the kinematics of a
    Gauss point is kept by the whole routine. *)
Lemma Compute_Tangent_Matrix_by_kinematics (log : R -> R) (junk : Uninit)
  (Q : CFEM_NonlinearElasticity -> Prop) :
  (forall M t, Q t -> Q (set_D_Mat M t)) ->
  (forall M t, Q t -> Q (set_Ba_Mat M t)) ->
  (forall M t, Q t -> Q (set_Bb_Mat M t)) ->
  (forall M t, Q t -> Q (set_KAux_ab M t)) ->
  (forall e g t, Q t -> Q (kinematics e g t)) ->
  forall s e, Q s -> Q (fst (Compute_Tangent_Matrix log junk s e)).
Proof.
  intros HD HBa HBb HK Hkin s e Hs. unfold Compute_Tangent_Matrix. cbn [fst].
  apply (for_loop_preserves (fun fr => Q (this fr))).
  - cbn [this]. now apply init_Ba_Bb_keeps.
  - intros g fr Hfr. unfold Gauss_point.
    apply (for_loop_preserves (fun fr => Q (this fr))).
    + cbn [this]. now apply Hkin.
    + intros a t Ht. now apply stiffness_node_keeps.
Qed.

Lemma kinematics_fault_3D (e : CElement) (g : nat)
  (s : CFEM_NonlinearElasticity) :
  nDim s = 3%nat ->
  nDim (kinematics e g s) = 3%nat /\ F_fault (kinematics e g s) = F_fault s.
Proof.
  intros HD. split; [now rewrite kinematics_nDim|].
  unfold kinematics.
  transitivity (F_fault (for_loop 0 (GetnNodes e)
                           (deformation_gradient_node e g) (init_F_b s))).
  { set (t := for_loop _ _ _ _).
    apply (left_Cauchy_Green_keeps (fun u => F_fault u = F_fault t)); auto. }
  apply (for_loop_preserves
           (fun t => nDim t = 3%nat /\ F_fault t = F_fault s)).
  - split; [now rewrite init_F_b_nDim|].
    destruct s; simpl in *; subst. reflexivity.
  - intros n t [Ht HF]. unfold deformation_gradient_node.
    assert (H1 : nDim (retrieve_node e g n t) = 3%nat /\
                 F_fault (retrieve_node e g n t) = F_fault s).
    { apply (retrieve_node_keeps
               (fun u => nDim u = 3%nat /\ F_fault u = F_fault s)); auto. }
    destruct H1 as [H1 H2]. revert H1 H2.
    generalize (retrieve_node e g n t). intros u H1 H2.
    destruct u; simpl in *; subst. split; reflexivity.
Qed.

(** X14. In three dimensions every store that [Compute_Tangent_Matrix]
    makes into [F_Mat] lands inside the 3x3 buffer: no fault is
    recorded. *)
Theorem F_Mat_stores_in_bounds_3D (log : R -> R) (junk : Uninit)
  (s : CFEM_NonlinearElasticity) (e : CElement) :
  nDim s = 3%nat ->
  F_fault (fst (Compute_Tangent_Matrix log junk s e)) = F_fault s.
Proof.
  intros HD.
  apply (Compute_Tangent_Matrix_by_kinematics log junk
           (fun t => nDim t = 3%nat /\ F_fault t = F_fault s)); auto.
  intros e' g t [Ht HF].
  destruct (kinematics_fault_3D e' g t Ht) as [H1 H2].
  split; congruence.
Qed.

Lemma F_Mat_stores_in_bounds_3D_witness :
  nDim stressed_3D = 3%nat /\
  F_fault (fst (Compute_Tangent_Matrix ln junk1 stressed_3D tetrahedron)) =
  F_fault stressed_3D.
Proof.
  split; [reflexivity|].
  apply (F_Mat_stores_in_bounds_3D ln junk1 stressed_3D tetrahedron eq_refl).
Defined.

Lemma kinematics_fault_2D (e : CElement) (g : nat)
  (s : CFEM_NonlinearElasticity) (L : list (nat * nat)) :
  nDim s = 2%nat ->
  (forall p, In p (F_fault s) -> In p L \/ p = (3, 3)%nat) ->
  forall p, In p (F_fault (kinematics e g s)) -> In p L \/ p = (3, 3)%nat.
Proof.
  intros HD HL. unfold kinematics.
  set (t := for_loop _ _ _ _).
  assert (Ht : nDim t = 2%nat /\
               forall p, In p (F_fault t) -> In p L \/ p = (3, 3)%nat).
  { unfold t.
    apply (for_loop_preserves
             (fun t => nDim t = 2%nat /\
                       forall p, In p (F_fault t) -> In p L \/ p = (3, 3)%nat)).
    - split; [now rewrite init_F_b_nDim|].
      destruct s; simpl in *; subst. exact HL.
    - intros n u [Hu HF]. unfold deformation_gradient_node.
      assert (H1 : nDim (retrieve_node e g n u) = 2%nat /\
                   F_fault (retrieve_node e g n u) = F_fault u).
      { apply (retrieve_node_keeps
                 (fun v => nDim v = 2%nat /\ F_fault v = F_fault u)); auto. }
      destruct H1 as [H1 H2]. rewrite <- H2 in HF. revert H1 HF.
      generalize (retrieve_node e g n u). intros v H1 HF.
      destruct v; simpl in *; subst. split; [reflexivity|].
      intros p [Hp|Hp]; [right; now symmetry | now apply HF]. }
  destruct Ht as [_ Ht].
  intros p Hp. apply Ht. revert Hp.
  apply (left_Cauchy_Green_keeps
           (fun u => In p (F_fault u) -> In p (F_fault t))); auto.
Qed.

(** X15. In two dimensions the store to [F_Mat[3][3]] is the only one that
    misses the buffer: every store of the zeroing and accumulation loops is
    in bounds, so each fault recorded by the routine is (3,3). *)
Theorem F_Mat_only_fault_2D (log : R -> R) (junk : Uninit)
  (s : CFEM_NonlinearElasticity) (e : CElement) (p : nat * nat) :
  nDim s = 2%nat ->
  In p (F_fault (fst (Compute_Tangent_Matrix log junk s e))) ->
  In p (F_fault s) \/ p = (3, 3)%nat.
Proof.
  intros HD.
  assert (H : nDim (fst (Compute_Tangent_Matrix log junk s e)) = 2%nat /\
              forall q, In q (F_fault (fst (Compute_Tangent_Matrix log junk s e))) ->
                        In q (F_fault s) \/ q = (3, 3)%nat).
  { apply (Compute_Tangent_Matrix_by_kinematics log junk
             (fun t => nDim t = 2%nat /\
                       forall q, In q (F_fault t) ->
                                 In q (F_fault s) \/ q = (3, 3)%nat)); auto.
    intros e' g t [Ht HF]. split; [now rewrite kinematics_nDim|].
    now apply kinematics_fault_2D. }
  apply H.
Qed.

Lemma F_Mat_only_fault_2D_witness :
  nDim fresh_2D = 2%nat /\
  In (3, 3)%nat (F_fault (fst (Compute_Tangent_Matrix ln junk1 fresh_2D triangle))) /\
  (In (3, 3)%nat (F_fault fresh_2D) \/ (3, 3)%nat = (3, 3)%nat).
Proof.
  assert (H : In (3, 3)%nat
                (F_fault (fst (Compute_Tangent_Matrix ln junk1 fresh_2D triangle)))).
  { apply plane_strain_store_faults; simpl; lia. }
  split; [reflexivity|]. split; [exact H|].
  apply (F_Mat_only_fault_2D ln junk1 fresh_2D triangle (3, 3)%nat eq_refl H).
Defined.

(** ** Compute_Tangent_Matrix: empty loops *)

(** X16. An element that reports no Gauss point or no node gets no
    stiffness: it comes out as [clearElement] left it.  With no Gauss point
    the tensors of the object are not touched either. *)
Theorem Compute_Tangent_Matrix_empty (log : R -> R) (junk : Uninit)
  (s : CFEM_NonlinearElasticity) (e : CElement) :
  GetnGaussPoints e = 0%nat \/ GetnNodes e = 0%nat ->
  snd (Compute_Tangent_Matrix log junk s e) = clearElement e /\
  (GetnGaussPoints e = 0%nat ->
   F_Mat (fst (Compute_Tangent_Matrix log junk s e)) = F_Mat s /\
   b_Mat (fst (Compute_Tangent_Matrix log junk s e)) = b_Mat s /\
   J_F (fst (Compute_Tangent_Matrix log junk s e)) = J_F s /\
   D_Mat (fst (Compute_Tangent_Matrix log junk s e)) = D_Mat s).
Proof.
  intros H. split.
  - unfold Compute_Tangent_Matrix. cbn [snd].
    change (GetnGaussPoints (ComputeGrad_Linear (clearElement e)))
      with (GetnGaussPoints e).
    destruct H as [H|H].
    + rewrite H. reflexivity.
    + apply (for_loop_preserves (fun fr => element fr = clearElement e));
        [reflexivity|].
      intros g fr Hfr. unfold Gauss_point. rewrite Hfr.
      change (GetnNodes (clearElement e)) with (GetnNodes e).
      rewrite H. reflexivity.
  - intros H0. unfold Compute_Tangent_Matrix. cbn [fst].
    change (GetnGaussPoints (ComputeGrad_Linear (clearElement e)))
      with (GetnGaussPoints e).
    rewrite H0. unfold for_loop. cbn [Nat.sub seq fold_left this].
    split; [|split; [|split]].
    + apply (init_Ba_Bb_keeps junk (fun t => F_Mat t = F_Mat s)); auto.
    + apply (init_Ba_Bb_keeps junk (fun t => b_Mat t = b_Mat s)); auto.
    + apply (init_Ba_Bb_keeps junk (fun t => J_F t = J_F s)); auto.
    + apply (init_Ba_Bb_keeps junk (fun t => D_Mat t = D_Mat s)); auto.
Qed.

Lemma Compute_Tangent_Matrix_empty_witness :
  (GetnGaussPoints empty_element = 0%nat \/ GetnNodes empty_element = 0%nat) /\
  snd (Compute_Tangent_Matrix ln junk1 stale_2D empty_element)
  = clearElement empty_element.
Proof.
  split; [left; reflexivity|].
  apply (Compute_Tangent_Matrix_empty ln junk1 stale_2D empty_element).
  left. reflexivity.
Defined.

(** ** Compute_Tangent_Matrix: the material blocks *)

Lemma Kab_Add_Kab (val : Mat) (x y : nat) (e : CElement) (x' y' i j : nat) :
  Kab (Add_Kab val x y e) x' y' i j =
  if same_pair x y x' y' then Kab e x y i j + val i j else Kab e x' y' i j.
Proof. simpl. now destruct (same_pair x y x' y'). Qed.

Lemma Kab_Add_Kab_T (val : Mat) (x y : nat) (e : CElement) (x' y' i j : nat) :
  Kab (Add_Kab_T val x y e) x' y' i j =
  if same_pair x y x' y' then Kab e x y i j + val j i else Kab e x' y' i j.
Proof. simpl. now destruct (same_pair x y x' y'). Qed.

Lemma Kab_Add_Ks_ab (val : R) (x y : nat) (e : CElement) :
  Kab (Add_Ks_ab val x y e) = Kab e.
Proof. reflexivity. Qed.

Lemma same_pair_spec (x y x' y' : nat) :
  same_pair x y x' y' = true <-> x' = x /\ y' = y.
Proof.
  unfold same_pair. rewrite andb_true_iff, !Nat.eqb_eq. tauto.
Qed.

Lemma same_pair_false (x y x' y' : nat) :
  x' <> x \/ y' <> y -> same_pair x y x' y' = false.
Proof.
  intros H. destruct (same_pair x y x' y') eqn:E; [|reflexivity].
  apply same_pair_spec in E. destruct E, H; contradiction.
Qed.

Lemma same_pair_true (x y : nat) : same_pair x y x y = true.
Proof. apply same_pair_spec. auto. Qed.

Lemma Kab_transposed (log : R -> R) (junk : Uninit)
  (s : CFEM_NonlinearElasticity) (e : CElement) (a b : nat) :
  (a < b)%nat ->
  forall i j,
    Kab (snd (Compute_Tangent_Matrix log junk s e)) b a j i =
    Kab (snd (Compute_Tangent_Matrix log junk s e)) a b i j.
Proof.
  intros Hab. unfold Compute_Tangent_Matrix. cbn [snd].
  apply (for_loop_preserves
           (fun fr => forall i j,
              Kab (element fr) b a j i = Kab (element fr) a b i j));
    [reflexivity|].
  intros g fr Hfr. unfold Gauss_point.
  apply (for_loop_preserves
           (fun fr => forall i j,
              Kab (element fr) b a j i = Kab (element fr) a b i j));
    [exact Hfr|].
  intros iNode fr1 Hfr1. unfold stiffness_node.
  apply (for_loop_preserves_in_range
           (fun fr => forall i j,
              Kab (element fr) b a j i = Kab (element fr) a b i j));
    [exact Hfr1|].
  intros jNode fr2 Hj Hfr2 i j. unfold pair_block. cbn [element].
  set (val := KAux_ab _).
  destruct (Nat.eqb_spec iNode jNode) as [E|E]; cbn [negb].
  - rewrite !Kab_Add_Ks_ab, !Kab_Add_Kab.
    rewrite !same_pair_false by lia. apply Hfr2.
  - rewrite !Kab_Add_Ks_ab, !Kab_Add_Kab_T, !Kab_Add_Ks_ab, !Kab_Add_Kab.
    destruct (Nat.eq_dec a iNode) as [Ea|Ea];
      destruct (Nat.eq_dec b jNode) as [Eb|Eb].
    + subst a b. rewrite !same_pair_true.
      rewrite (same_pair_false iNode jNode jNode iNode) by lia.
      rewrite (same_pair_false jNode iNode iNode jNode) by lia.
      rewrite Hfr2. reflexivity.
    + rewrite !same_pair_false by lia. apply Hfr2.
    + rewrite !same_pair_false by lia. apply Hfr2.
    + rewrite !same_pair_false by lia. apply Hfr2.
Qed.

(** X17. The mirrored write keeps the material stiffness of distinct nodes
    transposed: for [a < b], entry (j,i) of the block stored for (b,a)
    equals entry (i,j) of the block stored for (a,b), for every element and
    every state of the object. *)
Theorem material_blocks_mirrored (log : R -> R) (junk : Uninit)
  (s : CFEM_NonlinearElasticity) (e : CElement) (a b : nat) :
  (a < b)%nat ->
  forall i j,
    Kab (snd (Compute_Tangent_Matrix log junk s e)) b a j i =
    Kab (snd (Compute_Tangent_Matrix log junk s e)) a b i j.
Proof. apply Kab_transposed. Qed.

Lemma material_blocks_mirrored_witness :
  (0 < 2)%nat /\
  Kab (snd (Compute_Tangent_Matrix ln junk1 stressed_3D tetrahedron)) 2 0
    1%nat 0%nat =
  Kab (snd (Compute_Tangent_Matrix ln junk1 stressed_3D tetrahedron)) 0 2
    0%nat 1%nat.
Proof.
  split; [lia|].
  apply (material_blocks_mirrored ln junk1 stressed_3D tetrahedron 0 2); lia.
Defined.

(** X18. [Compute_Tangent_Matrix] makes no store into the material
    constants, the dimension, [Stress_Tensor] or [KAux_P_ab]. *)
Theorem Compute_Tangent_Matrix_frame (log : R -> R) (junk : Uninit)
  (s : CFEM_NonlinearElasticity) (e : CElement) :
  let s' := fst (Compute_Tangent_Matrix log junk s e) in
  nDim s' = nDim s /\ Mu s' = Mu s /\ Lambda s' = Lambda s /\
  Kappa s' = Kappa s /\ Stress_Tensor s' = Stress_Tensor s /\
  KAux_P_ab s' = KAux_P_ab s.
Proof.
  intros s'. unfold s'.
  split; [|split; [|split; [|split; [|split]]]].
  - apply (Compute_Tangent_Matrix_keeps log junk (fun t => nDim t = nDim s));
      solve [reflexivity | frame_side].
  - apply (Compute_Tangent_Matrix_keeps log junk (fun t => Mu t = Mu s));
      solve [reflexivity | frame_side].
  - apply (Compute_Tangent_Matrix_keeps log junk (fun t => Lambda t = Lambda s));
      solve [reflexivity | frame_side].
  - apply (Compute_Tangent_Matrix_keeps log junk (fun t => Kappa t = Kappa s));
      solve [reflexivity | frame_side].
  - apply (Compute_Tangent_Matrix_keeps log junk
             (fun t => Stress_Tensor t = Stress_Tensor s));
      solve [reflexivity | frame_side].
  - apply (Compute_Tangent_Matrix_keeps log junk
             (fun t => KAux_P_ab t = KAux_P_ab s));
      solve [reflexivity | frame_side].
Qed.

(** ** Compute_Tangent_Matrix: the local array AuxMatrixKc *)

(** X20. In three dimensions the rows of [AuxMatrixKc] overlap.  The array
    is declared [6][3] and subscripted [i][j] with [j < 6], so after the
    loop of lines 230-237 the cells that line 273 reads as [0][3..5] hold
    the products of row 1, [sum over k of Ba[k][1] * D[k][j]], and those
    read as [1][3..5] hold the products of row 2; only row 2 is whole. *)
Theorem AuxMatrixKc_rows_overlap_3D (junk : Uninit)
  (s : CFEM_NonlinearElasticity) (Kc : Vec) (j : nat) :
  nDim s = 3%nat -> (j < 3)%nat ->
  BT_D junk s Kc (Kc_at 0 (3 + j)) =
    sum_upto 6 (fun k => Ba_Mat s k 1%nat * D_Mat s k j) /\
  BT_D junk s Kc (Kc_at 1 (3 + j)) =
    sum_upto 6 (fun k => Ba_Mat s k 2%nat * D_Mat s k j) /\
  (forall j', (j' < 6)%nat ->
     BT_D junk s Kc (Kc_at 2 j') =
     sum_upto 6 (fun k => Ba_Mat s k 2%nat * D_Mat s k j')).
Proof.
  intros HD Hj. destruct s; simpl in HD; subst.
  split; [|split].
  - below 3%nat j; reflexivity.
  - below 3%nat j; reflexivity.
  - intros j' Hj'. below 6%nat j'; reflexivity.
Qed.

Lemma AuxMatrixKc_rows_overlap_3D_witness :
  nDim stressed_3D = 3%nat /\ (0 < 3)%nat /\
  BT_D junk1 stressed_3D (fun _ => 0) (Kc_at 0 (3 + 0)) =
    sum_upto 6 (fun k => Ba_Mat stressed_3D k 1%nat * D_Mat stressed_3D k 0%nat).
Proof.
  split; [reflexivity|]. split; [lia|].
  exact (proj1 (AuxMatrixKc_rows_overlap_3D junk1 stressed_3D (fun _ => 0) 0
                  eq_refl (Nat.lt_0_succ 2))).
Defined.

(** ** Compute_Tangent_Matrix: the copies of the element's data *)

Lemma upd2_hit (M : Mat) (i j : nat) (x : R) : upd2 M i j x i j = x.
Proof. unfold upd2. now rewrite !Nat.eqb_refl. Qed.

Lemma upd2_miss (M : Mat) (i j i' j' : nat) (x : R) :
  i' <> i \/ j' <> j -> upd2 M i j x i' j' = M i' j'.
Proof.
  intros H. unfold upd2.
  destruct (Nat.eqb_spec i' i); destruct (Nat.eqb_spec j' j); simpl;
    try reflexivity.
  destruct H; contradiction.
Qed.

(** Lines 163-166 copy one node's row and touch no other cell. *)
Lemma retrieve_node_cells (e : CElement) (g n : nat)
  (s : CFEM_NonlinearElasticity) :
  let t := retrieve_node e g n s in
  (forall c, (c < nDim s)%nat ->
     currentCoord t n c = GetCurr_Coord e n c /\
     GradNi_Mat t n c = GetGradNi_X e n g c) /\
  (forall r c, r <> n \/ (nDim s <= c)%nat ->
     currentCoord t r c = currentCoord s r c /\
     GradNi_Mat t r c = GradNi_Mat s r c).
Proof.
  unfold retrieve_node.
  apply (for_loop_ind (fun k t =>
    (forall c, (c < k)%nat ->
       currentCoord t n c = GetCurr_Coord e n c /\
       GradNi_Mat t n c = GetGradNi_X e n g c) /\
    (forall r c, r <> n \/ (k <= c)%nat ->
       currentCoord t r c = currentCoord s r c /\
       GradNi_Mat t r c = GradNi_Mat s r c))); [lia| |].
  - split; [intros; lia | auto].
  - intros k t Hk [Hin Hout]. cbn [currentCoord GradNi_Mat set_currentCoord
      set_GradNi_Mat]. split.
    + intros c Hc. destruct (Nat.eq_dec c k) as [->|Hne].
      * now rewrite !upd2_hit.
      * rewrite !upd2_miss by (right; assumption). apply Hin. lia.
    + intros r c Hrc.
      rewrite !upd2_miss by (destruct Hrc; [left; assumption | right; lia]).
      apply Hout. destruct Hrc; [left; assumption | right; lia].
Qed.

Lemma after_retrieve_node (e : CElement) (g n : nat)
  (s : CFEM_NonlinearElasticity) :
  currentCoord (deformation_gradient_node e g n s)
    = currentCoord (retrieve_node e g n s) /\
  GradNi_Mat (deformation_gradient_node e g n s)
    = GradNi_Mat (retrieve_node e g n s).
Proof.
  unfold deformation_gradient_node. set (t := retrieve_node e g n s).
  apply (plane_strain_keeps
           (fun u => currentCoord u = currentCoord t /\
                     GradNi_Mat u = GradNi_Mat t)); [frame_side|].
  apply (accumulate_F_keeps
           (fun u => currentCoord u = currentCoord t /\
                     GradNi_Mat u = GradNi_Mat t)); [frame_side|].
  split; reflexivity.
Qed.

(** After the kinematics of a Gauss point the two buffers hold the
    element's current coordinates and reference gradients for every node,
    and nothing else changed in them. *)
Lemma kinematics_copies (e : CElement) (g : nat)
  (s : CFEM_NonlinearElasticity) :
  let s' := kinematics e g s in
  (forall n c, (n < GetnNodes e)%nat -> (c < nDim s)%nat ->
     currentCoord s' n c = GetCurr_Coord e n c /\
     GradNi_Mat s' n c = GetGradNi_X e n g c) /\
  (forall r c, (GetnNodes e <= r \/ nDim s <= c)%nat ->
     currentCoord s' r c = currentCoord s r c /\
     GradNi_Mat s' r c = GradNi_Mat s r c).
Proof.
  unfold kinematics.
  set (t := for_loop 0 (GetnNodes e) (deformation_gradient_node e g) (init_F_b s)).
  assert (Ht :
    nDim t = nDim s /\
    (forall n c, (n < GetnNodes e)%nat -> (c < nDim s)%nat ->
       currentCoord t n c = GetCurr_Coord e n c /\
       GradNi_Mat t n c = GetGradNi_X e n g c) /\
    (forall r c, (GetnNodes e <= r \/ nDim s <= c)%nat ->
       currentCoord t r c = currentCoord s r c /\
       GradNi_Mat t r c = GradNi_Mat s r c)).
  { unfold t.
    apply (for_loop_ind (fun k t =>
      nDim t = nDim s /\
      (forall n c, (n < k)%nat -> (c < nDim s)%nat ->
         currentCoord t n c = GetCurr_Coord e n c /\
         GradNi_Mat t n c = GetGradNi_X e n g c) /\
      (forall r c, (k <= r \/ nDim s <= c)%nat ->
         currentCoord t r c = currentCoord s r c /\
         GradNi_Mat t r c = GradNi_Mat s r c))); [lia| |].
    - split; [apply init_F_b_nDim|]. split; [intros; lia|].
      intros r c _.
      apply (init_F_b_keeps
               (fun u => currentCoord u r c = currentCoord s r c /\
                         GradNi_Mat u r c = GradNi_Mat s r c));
        [auto | frame_side | split; reflexivity].
    - intros k u Hk (Hu & Hin & Hout).
      destruct (after_retrieve_node e g k u) as [E1 E2].
      destruct (retrieve_node_cells e g k u) as [Rin Rout].
      split; [|split].
      + unfold deformation_gradient_node.
        rewrite plane_strain_nDim, accumulate_F_nDim.
        now rewrite (proj2 (retrieve_node_F_Mat e g k u)).
      + intros n c Hn Hc. rewrite E1, E2.
        destruct (Nat.eq_dec n k) as [->|Hne].
        * apply Rin. now rewrite Hu.
        * destruct (Rout n c (or_introl Hne)) as [R1 R2].
          rewrite R1, R2. apply Hin; [lia | assumption].
      + intros r c Hrc. rewrite E1, E2.
        assert (Hrc' : r <> k \/ (nDim u <= c)%nat)
          by (rewrite Hu; destruct Hrc; [left; lia | right; assumption]).
        destruct (Rout r c Hrc') as [R1 R2]. rewrite R1, R2.
        apply Hout. destruct Hrc; [left; lia | right; assumption]. }
  destruct Ht as (_ & Hin & Hout).
  assert (Hlast : currentCoord (left_Cauchy_Green (determinant_F t))
                    = currentCoord t /\
                  GradNi_Mat (left_Cauchy_Green (determinant_F t))
                    = GradNi_Mat t).
  { apply (left_Cauchy_Green_keeps
             (fun u => currentCoord u = currentCoord t /\
                       GradNi_Mat u = GradNi_Mat t)); auto. }
  destruct Hlast as [L1 L2]. cbv zeta. rewrite L1, L2. split; assumption.
Qed.

(** X19. [Compute_Tangent_Matrix] writes [currentCoord] only in rows below
    the node count and columns below [nDim].  With the buffer that the
    constructor allocates (4 rows in 2D, 8 in 3D) an element of at most
    that many nodes therefore leaves every cell outside the buffer as it
    was. *)
Theorem currentCoord_stores_in_bounds (log : R -> R) (junk : Uninit)
  (s : CFEM_NonlinearElasticity) (e : CElement) (rows : nat) :
  currentCoord_rows (nDim s) = Some rows -> (GetnNodes e <= rows)%nat ->
  forall r c, (rows <= r \/ nDim s <= c)%nat ->
    currentCoord (fst (Compute_Tangent_Matrix log junk s e)) r c =
    currentCoord s r c.
Proof.
  intros _ Hn r c Hrc.
  assert (H : forall t, nDim t = nDim s ->
                currentCoord t r c = currentCoord s r c ->
                forall e' g, GetnNodes e' = GetnNodes e ->
                  currentCoord (kinematics e' g t) r c = currentCoord s r c).
  { intros t Ht Hc e' g He'.
    destruct (kinematics_copies e' g t) as [_ Hout].
    assert (Hside : (GetnNodes e' <= r \/ nDim t <= c)%nat)
      by (rewrite He', Ht; destruct Hrc; [left; lia | right; assumption]).
    destruct (Hout r c Hside) as [E _]. now rewrite E. }
  unfold Compute_Tangent_Matrix. cbn [fst].
  apply (for_loop_preserves
           (fun fr => (nDim (this fr) = nDim s /\
                       currentCoord (this fr) r c = currentCoord s r c) /\
                      GetnNodes (element fr) = GetnNodes e)).
  - cbn [this element]. split; [|reflexivity].
    apply (init_Ba_Bb_keeps junk
             (fun t => nDim t = nDim s /\
                       currentCoord t r c = currentCoord s r c)); auto.
  - intros g fr [[H1 H2] H3]. unfold Gauss_point.
    apply (for_loop_preserves
             (fun fr => (nDim (this fr) = nDim s /\
                         currentCoord (this fr) r c = currentCoord s r c) /\
                        GetnNodes (element fr) = GetnNodes e)).
    + cbn [this element]. split; [|exact H3].
      split; [now rewrite kinematics_nDim | now apply H].
    + intros a fr1 [Hq He]. unfold stiffness_node.
      apply (for_loop_preserves
               (fun fr => (nDim (this fr) = nDim s /\
                           currentCoord (this fr) r c = currentCoord s r c) /\
                          GetnNodes (element fr) = GetnNodes e)).
      * cbn [this element]. split; [|exact He].
        unfold Compute_Constitutive_Matrix. exact Hq.
      * intros b fr2 [Hq2 He2]. split.
        -- apply (pair_block_keeps junk
                    (fun t => nDim t = nDim s /\
                              currentCoord t r c = currentCoord s r c)); auto.
        -- unfold pair_block. cbn [element].
           destruct (negb (a =? b)%nat); exact He2.
Qed.

Lemma currentCoord_stores_in_bounds_witness :
  currentCoord_rows (nDim stressed_3D) = Some 8%nat /\
  (GetnNodes tetrahedron <= 8)%nat /\
  (8 <= 9 \/ nDim stressed_3D <= 0)%nat /\
  currentCoord (fst (Compute_Tangent_Matrix ln junk1 stressed_3D tetrahedron))
    9%nat 0%nat
  = currentCoord stressed_3D 9%nat 0%nat.
Proof.
  assert (Hn : (GetnNodes tetrahedron <= 8)%nat) by (simpl; lia).
  assert (Hr : (8 <= 9 \/ nDim stressed_3D <= 0)%nat) by (left; lia).
  split; [reflexivity|]. split; [exact Hn|]. split; [exact Hr|].
  exact (currentCoord_stores_in_bounds ln junk1 stressed_3D tetrahedron 8
           eq_refl Hn 9%nat 0%nat Hr).
Defined.

(** ** Compute_Tangent_Matrix: the geometric stiffness *)

Lemma sum_upto_ext (n : nat) (f h : nat -> R) :
  (forall k, (k < n)%nat -> f k = h k) -> sum_upto n f = sum_upto n h.
Proof.
  induction n as [|n IH]; intros H; simpl; [reflexivity|].
  rewrite IH by (intros; apply H; lia). now rewrite H by lia.
Qed.

(** An accumulation [acc += f i] from 0 is the sum. *)
Lemma accumulate_scalar (n : nat) (f : nat -> R) :
  for_loop 0 n (fun i acc => acc + f i) 0 = sum_upto n f.
Proof.
  apply (for_loop_ind (fun k acc => acc = sum_upto k f)); [lia|reflexivity|].
  intros k acc _ ->. reflexivity.
Qed.

(** An accumulation [v[c] += f j] into one cell of a local array. *)
Lemma accumulate_cell (n c : nat) (f : nat -> R) (v : Vec) :
  let w := for_loop 0 n (fun j v => upd v c (v c + f j)) (upd v c 0) in
  w c = sum_upto n f /\ forall c', c' <> c -> w c' = v c'.
Proof.
  apply (for_loop_ind (fun k w =>
    w c = sum_upto k f /\ forall c', c' <> c -> w c' = v c')); [lia| |].
  - split.
    + unfold upd. now rewrite Nat.eqb_refl.
    + intros c' Hc. unfold upd. destruct (Nat.eqb_spec c' c); [contradiction|].
      reflexivity.
  - intros k w _ [H1 H2]. split.
    + unfold upd. rewrite Nat.eqb_refl. simpl. now rewrite H1.
    + intros c' Hc. unfold upd. destruct (Nat.eqb_spec c' c); [contradiction|].
      now apply H2.
Qed.

(** Lines 241-246: the product of a node's gradient with the stress. *)
Lemma GradT_Stress_cell (s : CFEM_NonlinearElasticity) (n : nat) (Ks : Vec)
  (c : nat) :
  (c < nDim s)%nat ->
  GradT_Stress s n Ks c =
  sum_upto (nDim s) (fun j => GradNi_Mat s n j * Stress_Tensor s j c).
Proof.
  intros Hc. unfold GradT_Stress.
  assert (H : forall k, (k <= nDim s)%nat ->
    let w := for_loop 0 k (fun i Ks =>
        for_loop 0 (nDim s) (fun j Ks =>
          upd Ks i (Ks i + GradNi_Mat s n j * Stress_Tensor s j i))
          (upd Ks i 0)) Ks in
    forall c', (c' < k)%nat ->
      w c' = sum_upto (nDim s)
               (fun j => GradNi_Mat s n j * Stress_Tensor s j c')).
  { intros k Hk.
    apply (for_loop_ind (fun k w =>
      forall c', (c' < k)%nat ->
        w c' = sum_upto (nDim s)
                 (fun j => GradNi_Mat s n j * Stress_Tensor s j c')));
      [lia | intros; lia |].
    intros i w Hi Hw c' Hc'.
    destruct (accumulate_cell (nDim s) i
                (fun j => GradNi_Mat s n j * Stress_Tensor s j i) w)
      as [A1 A2].
    destruct (Nat.eq_dec c' i) as [->|Hne].
    - exact A1.
    - rewrite A2 by assumption. apply Hw. lia. }
  apply (H (nDim s) (Nat.le_refl _) c Hc).
Qed.

Lemma material_block_frame {A : Type} (p : CFEM_NonlinearElasticity -> A)
  (junk : Uninit) (W J : R) (Kc : Vec) (s : CFEM_NonlinearElasticity) :
  (forall M t, p (set_KAux_ab M t) = p t) ->
  p (material_block junk W J Kc s) = p s.
Proof.
  intros Hp.
  apply (material_block_keeps junk (fun t => p t = p s));
    [intros; now rewrite Hp | reflexivity].
Qed.

Lemma Ks_ab_Add_Ks_ab (val : R) (x y : nat) (e : CElement) (x' y' : nat) :
  Ks_ab (Add_Ks_ab val x y e) x' y' =
  if same_pair x y x' y' then Ks_ab e x y + val else Ks_ab e x' y'.
Proof. reflexivity. Qed.

(** One pair: both stores of the scalar go to (iNode, jNode). *)
Lemma pair_block_Ks_ab (junk : Uninit) (W J : R) (iNode jNode : nat)
  (fr : Frame) (a b : nat) :
  (iNode <= jNode)%nat ->
  let v := geometric_scalar W J (AuxMatrixKs fr) jNode (this fr) in
  Ks_ab (element (pair_block junk W J iNode jNode fr)) a b =
  if same_pair iNode jNode a b
  then Ks_ab (element fr) a b + geometric_count iNode jNode * v
  else Ks_ab (element fr) a b.
Proof.
  intros Hle v.
  assert (Hv : geometric_scalar W J (AuxMatrixKs fr) jNode
                 (material_block junk W J (AuxMatrixKc fr)
                    (set_Bb_Mat
                       (Voigt_B (nDim (this fr)) (GradNi_Mat (this fr)) jNode
                          (Bb_Mat (this fr))) (this fr))) = v).
  { unfold v, geometric_scalar.
    rewrite (material_block_frame nDim) by reflexivity.
    rewrite (material_block_frame GradNi_Mat) by reflexivity.
    reflexivity. }
  unfold pair_block. cbn [element]. rewrite Hv. clearbody v. clear Hv.
  unfold geometric_count.
  destruct (Nat.eqb_spec iNode jNode) as [E|E]; cbn [negb].
  - subst jNode. rewrite Nat.ltb_irrefl.
    rewrite Ks_ab_Add_Ks_ab, (proj1 (Add_Kab_Ks_ab _ _ _ _)).
    destruct (same_pair iNode iNode a b) eqn:Ep; [|reflexivity].
    apply same_pair_spec in Ep. destruct Ep; subst. lra.
  - rewrite (proj2 (Nat.ltb_lt iNode jNode)) by lia.
    repeat (rewrite Ks_ab_Add_Ks_ab
            || rewrite (proj1 (Add_Kab_Ks_ab _ _ _ _))
            || rewrite (proj2 (Add_Kab_Ks_ab _ _ _ _))).
    destruct (same_pair iNode jNode a b) eqn:Ep; [|reflexivity].
    apply same_pair_spec in Ep. destruct Ep; subst.
    rewrite ?same_pair_true. lra.
Qed.

Lemma pair_block_same_data (junk : Uninit) (W J : R) (a b : nat) (fr : Frame)
  (e : CElement) :
  same_tangent_data e (element fr) ->
  same_tangent_data e (element (pair_block junk W J a b fr)).
Proof.
  intros H. unfold pair_block. cbn [element].
  destruct (negb (a =? b)%nat); exact H.
Qed.

Section GeometricStiffness.

Variable log : R -> R.
Variable junk : Uninit.
Variable s : CFEM_NonlinearElasticity.
Variable e : CElement.
Variable g : nat.

Lemma geometric_scalar_value (t : CFEM_NonlinearElasticity) (Ks : Vec)
  (a b : nat) :
  (stiffness_ready s e g) t -> (b < GetnNodes e)%nat ->
  (forall c, (c < nDim s)%nat ->
     Ks c = sum_upto (nDim s)
              (fun j => GetGradNi_X e a g j * Stress_Tensor s j c)) ->
  geometric_scalar (GetWeight e g) (GetJ_X e g) Ks b t = geometric_term e (Stress_Tensor s) (nDim s) g a b.
Proof.
  intros (HD & HS & HG) Hb HKs. unfold geometric_scalar.
  rewrite (accumulate_scalar (nDim t)
             (fun i => GetWeight e g * Ks i * GradNi_Mat t b i * GetJ_X e g)).
  rewrite HD. unfold geometric_term.
  apply sum_upto_ext. intros i Hi.
  now rewrite HKs, HG by assumption.
Qed.

Lemma stiffness_node_Ks_ab (a : nat) (fr : Frame) :
  (stiffness_ready s e g) (this fr) -> same_tangent_data e (element fr) ->
  (a < GetnNodes e)%nat ->
  let fr' := stiffness_node log junk (GetWeight e g) (GetJ_X e g) a fr in
  (stiffness_ready s e g) (this fr') /\ same_tangent_data e (element fr') /\
  forall x y, (y < GetnNodes e)%nat ->
    Ks_ab (element fr') x y =
    Ks_ab (element fr) x y
    + (if Nat.eqb x a then geometric_count x y * geometric_term e (Stress_Tensor s) (nDim s) g x y else 0).
Proof.
  intros HGood Hdata Ha. unfold stiffness_node.
  set (s1 := Compute_Constitutive_Matrix log junk
               (set_Ba_Mat
                  (Voigt_B (nDim (this fr)) (GradNi_Mat (this fr)) a
                     (Ba_Mat (this fr))) (this fr))).
  set (Ks := GradT_Stress s1 a (AuxMatrixKs fr)).
  set (Kc := BT_D junk s1 (AuxMatrixKc fr)).
  assert (Hs1 : (stiffness_ready s e g) s1) by exact HGood.
  assert (HKs : forall c, (c < nDim s)%nat ->
            Ks c = sum_upto (nDim s)
                     (fun j => GetGradNi_X e a g j * Stress_Tensor s j c)).
  { intros c Hc. unfold Ks. destruct Hs1 as (HD & HS & HG).
    rewrite GradT_Stress_cell by (rewrite HD; assumption).
    rewrite HD, HS. apply sum_upto_ext. intros j Hj. now rewrite HG. }
  destruct Hdata as (Hn & HW & HJ & HGr).
  rewrite Hn.
  assert (Hloop :
    let fr' := for_loop a (GetnNodes e)
                 (pair_block junk (GetWeight e g) (GetJ_X e g) a)
                 (mkFrame s1 (element fr) Kc Ks) in
    (stiffness_ready s e g) (this fr') /\ same_tangent_data e (element fr') /\
    AuxMatrixKs fr' = Ks /\
    forall x y,
      Ks_ab (element fr') x y =
      Ks_ab (element fr) x y
      + (if (Nat.eqb x a && Nat.leb a y && Nat.ltb y (GetnNodes e))%bool
         then geometric_count a y * geometric_term e (Stress_Tensor s) (nDim s) g a y else 0)).
  { apply (for_loop_ind (fun k fr' =>
      (stiffness_ready s e g) (this fr') /\ same_tangent_data e (element fr') /\
      AuxMatrixKs fr' = Ks /\
      forall x y,
        Ks_ab (element fr') x y =
        Ks_ab (element fr) x y
        + (if (Nat.eqb x a && Nat.leb a y && Nat.ltb y k)%bool
           then geometric_count a y * geometric_term e (Stress_Tensor s) (nDim s) g a y else 0))); [lia| |].
    - cbn [this element AuxMatrixKs]. split; [exact Hs1|].
      split; [repeat split; assumption|]. split; [reflexivity|].
      intros x y.
      replace (Nat.eqb x a && Nat.leb a y && Nat.ltb y a)%bool with false;
        [lra|].
      destruct (Nat.eqb x a); destruct (Nat.leb_spec a y);
        destruct (Nat.ltb_spec y a); simpl; try reflexivity; lia.
    - intros k fr' Hk (HG' & HD' & HA' & HK').
      split; [|split; [|split]].
      + apply (pair_block_keeps junk (stiffness_ready s e g)); auto.
      + now apply pair_block_same_data.
      + unfold pair_block. cbn [AuxMatrixKs]. exact HA'.
      + intros x y. rewrite pair_block_Ks_ab by lia. cbv zeta.
        rewrite HA'.
        rewrite (geometric_scalar_value (this fr') Ks a k HG') by (lia || auto).
        rewrite HK'.
        destruct (same_pair a k x y) eqn:Ep.
        * apply same_pair_spec in Ep. destruct Ep; subst x y.
          rewrite Nat.eqb_refl, Nat.ltb_irrefl, andb_false_r.
          rewrite (proj2 (Nat.leb_le a k)) by lia.
          rewrite (proj2 (Nat.ltb_lt k (S k))) by lia. simpl. lra.
        * f_equal.
          destruct (Nat.eqb_spec x a) as [Ex|Ex]; simpl; [|reflexivity].
          destruct (Nat.leb_spec a y); simpl; [|reflexivity].
          assert (y <> k).
          { intros Ey. subst. rewrite same_pair_true in Ep. discriminate. }
          now rewrite ltb_succ_other. }
  destruct Hloop as (H1 & H2 & _ & H4). split; [exact H1|]. split; [exact H2|].
  intros x y Hy. rewrite H4.
  rewrite (proj2 (Nat.ltb_lt y (GetnNodes e))) by assumption.
  rewrite andb_true_r.
  destruct (Nat.eqb_spec x a) as [Ex|Ex]; simpl; [|reflexivity].
  subst x. destruct (Nat.leb_spec a y); [reflexivity|].
  unfold geometric_count.
  rewrite (proj2 (Nat.ltb_ge a y)) by lia.
  destruct (Nat.eqb_spec a y); [lia|]. lra.
Qed.

Lemma Gauss_point_Ks_ab (fr : Frame) :
  nDim (this fr) = nDim s -> Stress_Tensor (this fr) = Stress_Tensor s ->
  same_tangent_data e (element fr) ->
  let fr' := Gauss_point log junk g fr in
  nDim (this fr') = nDim s /\ Stress_Tensor (this fr') = Stress_Tensor s /\
  same_tangent_data e (element fr') /\
  forall x y, (x < GetnNodes e)%nat -> (y < GetnNodes e)%nat ->
    Ks_ab (element fr') x y =
    Ks_ab (element fr) x y + geometric_count x y * geometric_term e (Stress_Tensor s) (nDim s) g x y.
Proof.
  intros HD HS Hdata. unfold Gauss_point.
  destruct Hdata as (Hn & HW & HJ & HGr). rewrite Hn, HW, HJ.
  set (s0 := kinematics (element fr) g (this fr)).
  assert (Hs0 : (stiffness_ready s e g) s0).
  { unfold s0. split; [|split].
    - now rewrite kinematics_nDim.
    - rewrite <- HS.
      apply (kinematics_keeps
               (fun t => Stress_Tensor t = Stress_Tensor (this fr)));
        solve [reflexivity | frame_side].
    - intros n c Hn' Hc.
      destruct (kinematics_copies (element fr) g (this fr)) as [Hin _].
      destruct (Hin n c) as [_ H2]; [now rewrite Hn | now rewrite HD|].
      now rewrite H2, HGr. }
  assert (Hloop :
    let fr' := for_loop 0 (GetnNodes e)
                 (stiffness_node log junk (GetWeight e g) (GetJ_X e g))
                 (mkFrame s0 (element fr) (AuxMatrixKc fr) (AuxMatrixKs fr)) in
    (stiffness_ready s e g) (this fr') /\ same_tangent_data e (element fr') /\
    forall x y, (y < GetnNodes e)%nat ->
      Ks_ab (element fr') x y =
      Ks_ab (element fr) x y
      + (if Nat.ltb x (GetnNodes e)
         then geometric_count x y * geometric_term e (Stress_Tensor s) (nDim s) g x y else 0)).
  { apply (for_loop_ind (fun k fr' =>
      (stiffness_ready s e g) (this fr') /\ same_tangent_data e (element fr') /\
      forall x y, (y < GetnNodes e)%nat ->
        Ks_ab (element fr') x y =
        Ks_ab (element fr) x y
        + (if Nat.ltb x k then geometric_count x y * geometric_term e (Stress_Tensor s) (nDim s) g x y else 0)));
      [lia| |].
    - cbn [this element]. split; [exact Hs0|].
      split; [repeat split; assumption|]. intros x y _. simpl. lra.
    - intros k fr' Hk (HG' & HD' & HK').
      destruct (stiffness_node_Ks_ab k fr' HG' HD') as (A1 & A2 & A3); [lia|].
      split; [exact A1|]. split; [exact A2|].
      intros x y Hy. rewrite A3, HK' by assumption.
      destruct (Nat.eqb_spec x k) as [->|Hne].
      + rewrite Nat.ltb_irrefl.
        rewrite (proj2 (Nat.ltb_lt k (S k))) by lia. lra.
      + rewrite ltb_succ_other by assumption. lra. }
  destruct Hloop as ((H1 & H2 & _) & H3 & H4).
  split; [exact H1|]. split; [exact H2|]. split; [exact H3|].
  intros x y Hx Hy. rewrite H4 by assumption.
  now rewrite (proj2 (Nat.ltb_lt x (GetnNodes e))) by assumption.
Qed.

End GeometricStiffness.

(** X21. The geometric stiffness that [Compute_Tangent_Matrix] leaves in
    the element is a function of the [Stress_Tensor] held on entry: for
    nodes a and b it is the sum over the Gauss points of
    [Weight * (grad_a . S . grad_b) * Jac_X], counted twice for [a < b],
    once for [a = b] and not at all for [a > b]. *)
Theorem geometric_stiffness_closed_form (log : R -> R) (junk : Uninit)
  (s : CFEM_NonlinearElasticity) (e : CElement) (a b : nat) :
  (a < GetnNodes e)%nat -> (b < GetnNodes e)%nat ->
  Ks_ab (snd (Compute_Tangent_Matrix log junk s e)) a b =
  geometric_count a b
  * sum_upto (GetnGaussPoints e)
      (fun g => geometric_term e (Stress_Tensor s) (nDim s) g a b).
Proof.
  intros Ha Hb. unfold Compute_Tangent_Matrix. cbn [snd].
  change (GetnGaussPoints (ComputeGrad_Linear (clearElement e)))
    with (GetnGaussPoints e).
  assert (H :
    let fr := for_loop 0 (GetnGaussPoints e) (Gauss_point log junk)
                (mkFrame (init_Ba_Bb junk s)
                   (ComputeGrad_Linear (clearElement e))
                   (init_AuxMatrixKc (fun _ => 0))
                   (init_AuxMatrixKs (fun _ => 0))) in
    nDim (this fr) = nDim s /\ Stress_Tensor (this fr) = Stress_Tensor s /\
    same_tangent_data e (element fr) /\
    forall x y, (x < GetnNodes e)%nat -> (y < GetnNodes e)%nat ->
      Ks_ab (element fr) x y =
      geometric_count x y
      * sum_upto (GetnGaussPoints e)
          (fun g => geometric_term e (Stress_Tensor s) (nDim s) g x y)).
  { apply (for_loop_ind (fun k fr =>
      nDim (this fr) = nDim s /\ Stress_Tensor (this fr) = Stress_Tensor s /\
      same_tangent_data e (element fr) /\
      forall x y, (x < GetnNodes e)%nat -> (y < GetnNodes e)%nat ->
        Ks_ab (element fr) x y =
        geometric_count x y
        * sum_upto k
            (fun g => geometric_term e (Stress_Tensor s) (nDim s) g x y)));
      [lia| |].
    - cbn [this element]. split; [|split; [|split]].
      + apply (init_Ba_Bb_keeps junk (fun t => nDim t = nDim s)); auto.
      + apply (init_Ba_Bb_keeps junk
                 (fun t => Stress_Tensor t = Stress_Tensor s)); auto.
      + repeat split.
      + intros x y _ _. simpl. lra.
    - intros k fr Hk (HD & HS & Hdata & HK).
      destruct (Gauss_point_Ks_ab log junk s e k fr HD HS Hdata)
        as (A1 & A2 & A3 & A4).
      split; [exact A1|]. split; [exact A2|]. split; [exact A3|].
      intros x y Hx Hy. rewrite A4, HK by assumption. simpl. lra. }
  destruct H as (_ & _ & _ & H). now apply H.
Qed.

Lemma geometric_stiffness_closed_form_witness :
  (0 < GetnNodes tetrahedron)%nat /\ (1 < GetnNodes tetrahedron)%nat /\
  Ks_ab (snd (Compute_Tangent_Matrix ln junk1 stressed_3D tetrahedron)) 0 1 =
  geometric_count 0 1
  * sum_upto (GetnGaussPoints tetrahedron)
      (fun g => geometric_term tetrahedron (Stress_Tensor stressed_3D)
                  (nDim stressed_3D) g 0 1).
Proof.
  assert (H0 : (0 < GetnNodes tetrahedron)%nat) by (simpl; lia).
  assert (H1 : (1 < GetnNodes tetrahedron)%nat) by (simpl; lia).
  split; [exact H0|]. split; [exact H1|].
  exact (geometric_stiffness_closed_form ln junk1 stressed_3D tetrahedron 0 1
           H0 H1).
Defined.
